(** * algo-trading-bot: signal scorer, indicator pipeline, backtest ledger

    A shallow embedding of [trading_strategy.py], [backtest.py] and
    [alpaca_trader.py].

    Numbers.  The Python code computes on IEEE floats held in pandas
    columns.  A float is embedded as a value of [fl]: not-a-number, the two
    infinities, or a finite value.  Finite values are exact rationals;
    rounding is not part of the model.  The special values follow IEEE:
    every ordered comparison with NaN is false, [0/0] is NaN, [x/0] is an
    infinity for [x <> 0].  Signed zeros are not distinguished. *)

From Stdlib Require Import String Ascii.
From Stdlib Require Import QArith ZArith List Bool Lia Lqa.
From Stdlib Require Import Qround Qabs.
From Stdlib Require PrimFloat FloatOps SpecFloat Uint63.
Import ListNotations.

Local Open Scope Q_scope.

(** ** Rational helpers *)

Definition Qltb (x y : Q) : bool := negb (Qle_bool y x).

Definition Qsum (xs : list Q) : Q := fold_right Qplus 0 xs.

Definition Qlen (xs : list Q) : Q := inject_Z (Z.of_nat (length xs)).

Definition Qmean (xs : list Q) : Q := Qsum xs / Qlen xs.

(** Square root on the rationals, rounded down to 53 binary fractional
    digits.  It is exact whenever the root is a dyadic rational of that
    precision, as the float square root is. *)
Definition sqrt_bits : Z := 53.

Definition Qsqrt (q : Q) : Q :=
  Z.sqrt ((Qnum q * 2 ^ (2 * sqrt_bits)) / Zpos (Qden q)) # Z.to_pos (2 ^ sqrt_bits).

(** Python's [int()] on a finite float: truncation toward zero. *)
Definition Qtrunc (q : Q) : Z :=
  if Qltb q 0 then Qceiling q else Qfloor q.

(** ** Floats with their special values *)

Inductive fl : Type :=
| NaN
| PInf
| NInf
| Fin (q : Q).

Definition is_nan (a : fl) : bool :=
  match a with NaN => true | _ => false end.

Definition flt (a b : fl) : bool :=
  match a, b with
  | NaN, _ | _, NaN => false
  | Fin x, Fin y => Qltb x y
  | NInf, NInf => false
  | NInf, _ => true
  | _, PInf => match a with PInf => false | _ => true end
  | _, _ => false
  end.

Definition fle (a b : fl) : bool :=
  match a, b with
  | NaN, _ | _, NaN => false
  | Fin x, Fin y => Qle_bool x y
  | NInf, _ => true
  | _, PInf => true
  | _, _ => false
  end.

Definition feqb (a b : fl) : bool :=
  match a, b with
  | Fin x, Fin y => Qeq_bool x y
  | PInf, PInf | NInf, NInf => true
  | _, _ => false
  end.

Definition fgt (a b : fl) : bool := flt b a.
Definition fge (a b : fl) : bool := fle b a.

Definition fneg (a : fl) : fl :=
  match a with
  | NaN => NaN
  | PInf => NInf
  | NInf => PInf
  | Fin x => Fin (- x)
  end.

Definition fadd (a b : fl) : fl :=
  match a, b with
  | NaN, _ | _, NaN => NaN
  | Fin x, Fin y => Fin (x + y)
  | PInf, NInf | NInf, PInf => NaN
  | PInf, _ | _, PInf => PInf
  | NInf, _ | _, NInf => NInf
  end.

Definition fsub (a b : fl) : fl := fadd a (fneg b).

(** The infinity whose sign is the sign of the rational [x]; NaN at 0. *)
Definition inf_signed (x : Q) : fl :=
  if Qltb 0 x then PInf else if Qltb x 0 then NInf else NaN.

Definition fmul (a b : fl) : fl :=
  match a, b with
  | NaN, _ | _, NaN => NaN
  | Fin x, Fin y => Fin (x * y)
  | Fin x, PInf | PInf, Fin x => inf_signed x
  | Fin x, NInf | NInf, Fin x => inf_signed (- x)
  | PInf, PInf | NInf, NInf => PInf
  | PInf, NInf | NInf, PInf => NInf
  end.

Definition fdiv (a b : fl) : fl :=
  match a, b with
  | NaN, _ | _, NaN => NaN
  | Fin x, Fin y => if Qeq_bool y 0 then inf_signed x else Fin (x / y)
  | Fin _, _ => Fin 0
  | PInf, Fin y => if Qltb y 0 then NInf else PInf
  | NInf, Fin y => if Qltb y 0 then PInf else NInf
  | _, _ => NaN
  end.

(** Equality of floats up to the representation of the rational. *)
Definition feq (a b : fl) : Prop :=
  match a, b with
  | NaN, NaN | PInf, PInf | NInf, NInf => True
  | Fin x, Fin y => x == y
  | _, _ => False
  end.

(** ** Columns (pandas Series) *)

Definition Series := list fl.

Fixpoint zip_with {A B C} (f : A -> B -> C) (xs : list A) (ys : list B)
  : list C :=
  match xs, ys with
  | x :: xs', y :: ys' => f x y :: zip_with f xs' ys'
  | _, _ => []
  end.

(** [s.shift(1)]: every value moves one row down, the first row is NaN. *)
Definition shift1 (s : Series) : Series :=
  match s with
  | [] => []
  | _ :: _ => NaN :: removelast s
  end.

(** [s.diff()]. *)
Definition diff (s : Series) : Series := zip_with fsub s (shift1 s).

(** [s.where(cond, other)]: keep the value where [cond] holds. *)
Definition where_ (cond : fl -> bool) (other : fl) (s : Series) : Series :=
  map (fun x => if cond x then x else other) s.

(** The [w] values ending at row [i], when there are that many. *)
Definition window {A} (w i : nat) (s : list A) : option (list A) :=
  if (i + 1 <? w)%nat then None
  else Some (firstn w (skipn (i + 1 - w) s)).

Fixpoint all_finite (xs : list fl) : option (list Q) :=
  match xs with
  | [] => Some []
  | Fin q :: xs' =>
      match all_finite xs' with
      | Some qs => Some (q :: qs)
      | None => None
      end
  | _ :: _ => None
  end.

(** [s.rolling(window=w).agg()]: [min_periods] defaults to [w], and a
    window holding fewer than [w] valid observations yields NaN. *)
Definition rolling (w : nat) (agg : list Q -> fl) (s : Series) : Series :=
  map (fun i =>
         match window w i s with
         | None => NaN
         | Some xs =>
             match all_finite xs with
             | Some qs => agg qs
             | None => NaN
             end
         end)
      (seq 0 (length s)).

Definition rolling_mean (w : nat) : Series -> Series :=
  rolling w (fun qs => Fin (Qmean qs)).

(** Sum of squared deviations from the mean. *)
Definition Qssd (xs : list Q) : Q :=
  Qsum (map (fun x => (x - Qmean xs) * (x - Qmean xs)) xs).

(** Variance with [ddof] delta degrees of freedom (divisor [n - ddof]). *)
Definition Qvar (ddof : nat) (xs : list Q) : Q :=
  Qssd xs / inject_Z (Z.of_nat (length xs) - Z.of_nat ddof).

(** [s.rolling(window=w).std()]: pandas' default is [ddof=1]. *)
Definition rolling_std (w : nat) : Series -> Series :=
  rolling w (fun qs =>
               if (length qs <=? 1)%nat then NaN
               else Fin (Qsqrt (Qvar 1 qs))).

(** [s.ewm(span=span, adjust=False).mean()]: seeded by the first value,
    then [y_t = (1 - alpha) * y_(t-1) + alpha * x_t], [alpha = 2/(span+1)].
    pandas leaves the running mean as it is when the new value equals it.
    The columns it is applied to hold finite values only. *)
Definition ewm_alpha (span : Z) : Q := 2 / (inject_Z span + 1).

Fixpoint ewm_from (alpha : Q) (weighted : fl) (s : Series) : Series :=
  match s with
  | [] => []
  | cur :: s' =>
      let weighted' :=
        if feqb weighted cur then weighted
        else fadd (fmul (Fin (1 - alpha)) weighted) (fmul (Fin alpha) cur) in
      weighted' :: ewm_from alpha weighted' s'
  end.

Definition ewm_mean (span : Z) (s : Series) : Series :=
  match s with
  | [] => []
  | x :: s' => x :: ewm_from (ewm_alpha span) x s'
  end.

(** ** trading_strategy.py *)

Record Bar : Type := {
  timestamp : Z;
  open : Q;
  high : Q;
  low : Q;
  close : Q;
  volume : Q
}.

Inductive Signal : Type := BUY | SELL | HOLD.

(** One row of the indicator table, as [df.iloc[i]] yields it. *)
Record Row : Type := {
  r_close : fl;
  r_volume : fl;
  rsi : fl;
  macd : fl;
  macd_signal : fl;
  macd_hist : fl;
  bb_upper : fl;
  bb_middle : fl;
  bb_lower : fl;
  ema_fast : fl;
  ema_slow : fl;
  volume_ma : fl;
  volume_signal : Z
}.

(** The indicator table, column by column. *)
Record DataFrame : Type := {
  df_close : Series;
  df_volume : Series;
  df_rsi : Series;
  df_macd : Series;
  df_macd_signal : Series;
  df_macd_hist : Series;
  df_bb_upper : Series;
  df_bb_middle : Series;
  df_bb_lower : Series;
  df_ema_fast : Series;
  df_ema_slow : Series;
  df_volume_ma : Series;
  df_volume_signal : list Z
}.

Module TradingStrategy.

(** [calculate_rsi(df, period=14)]. *)
Definition calculate_rsi (period : nat) (close_col : Series) : Series :=
  let delta := diff close_col in
  let gain :=
    rolling_mean period (where_ (fun d => fgt d (Fin 0)) (Fin 0) delta) in
  let loss :=
    rolling_mean period
      (map fneg (where_ (fun d => flt d (Fin 0)) (Fin 0) delta)) in
  let rs := zip_with fdiv gain loss in
  map (fun r => fsub (Fin 100) (fdiv (Fin 100) (fadd (Fin 1) r))) rs.

(** [calculate_macd(df, fast=12, slow=26, signal=9)]: the columns
    [macd], [macd_signal] and [macd_hist]. *)
Definition calculate_macd (fast slow signal : Z) (close_col : Series)
  : Series * Series * Series :=
  let ema_f := ewm_mean fast close_col in
  let ema_s := ewm_mean slow close_col in
  let macd_col := zip_with fsub ema_f ema_s in
  let signal_col := ewm_mean signal macd_col in
  (macd_col, signal_col, zip_with fsub macd_col signal_col).

(** [calculate_bollinger_bands(df, period=20, std=2)]: the columns
    [bb_middle], [bb_upper] and [bb_lower]. *)
Definition calculate_bollinger_bands (period : nat) (std : Q)
  (close_col : Series) : Series * Series * Series :=
  let bb_middle_col := rolling_mean period close_col in
  let bb_std := rolling_std period close_col in
  let width := map (fun s => fmul s (Fin std)) bb_std in
  (bb_middle_col,
   zip_with fadd bb_middle_col width,
   zip_with fsub bb_middle_col width).

(** [calculate_ema(df, fast=9, slow=21)]. *)
Definition calculate_ema (fast slow : Z) (close_col : Series)
  : Series * Series :=
  (ewm_mean fast close_col, ewm_mean slow close_col).

(** [calculate_volume_signal(df, period=20)]: the columns [volume_ma]
    and [volume_signal].  The column starts at 0; the bullish mask
    writes 1, then the bearish mask writes -1. *)
Definition calculate_volume_signal (period : nat)
  (close_col volume_col : Series) : Series * list Z :=
  let volume_ma_col := rolling_mean period volume_col in
  let high_volume :=
    zip_with (fun v m => fgt v (fmul m (Fin 1.5))) volume_col volume_ma_col in
  let prev_close := shift1 close_col in
  let up := zip_with fgt close_col prev_close in
  let down := zip_with flt close_col prev_close in
  let bullish := zip_with andb high_volume up in
  let bearish := zip_with andb high_volume down in
  (volume_ma_col,
   zip_with (fun bull bear : bool =>
               if bear then (-1)%Z else if bull then 1%Z else 0%Z)
            bullish bearish).

(** Lines 22-27: the table after all five indicator passes. *)
Definition indicators (bars : list Bar) : DataFrame :=
  let close_col := map (fun b => Fin (close b)) bars in
  let volume_col := map (fun b => Fin (volume b)) bars in
  let rsi_col := calculate_rsi 14 close_col in
  let '(macd_col, signal_col, hist_col) :=
    calculate_macd 12 26 9 close_col in
  let '(mid_col, upper_col, lower_col) :=
    calculate_bollinger_bands 20 2 close_col in
  let '(fast_col, slow_col) := calculate_ema 9 21 close_col in
  let '(vma_col, vsig_col) :=
    calculate_volume_signal 20 close_col volume_col in
  {| df_close := close_col; df_volume := volume_col; df_rsi := rsi_col;
     df_macd := macd_col; df_macd_signal := signal_col;
     df_macd_hist := hist_col; df_bb_upper := upper_col;
     df_bb_middle := mid_col; df_bb_lower := lower_col;
     df_ema_fast := fast_col; df_ema_slow := slow_col;
     df_volume_ma := vma_col; df_volume_signal := vsig_col |}.

(** [df.iloc[i]] for a row index [i] inside the table. *)
Definition row_at (df : DataFrame) (i : nat) : Row :=
  {| r_close := nth i (df_close df) NaN;
     r_volume := nth i (df_volume df) NaN;
     rsi := nth i (df_rsi df) NaN;
     macd := nth i (df_macd df) NaN;
     macd_signal := nth i (df_macd_signal df) NaN;
     macd_hist := nth i (df_macd_hist df) NaN;
     bb_upper := nth i (df_bb_upper df) NaN;
     bb_middle := nth i (df_bb_middle df) NaN;
     bb_lower := nth i (df_bb_lower df) NaN;
     ema_fast := nth i (df_ema_fast df) NaN;
     ema_slow := nth i (df_ema_slow df) NaN;
     volume_ma := nth i (df_volume_ma df) NaN;
     volume_signal := nth i (df_volume_signal df) 0%Z |}.

(** [df.iloc[-k]]: the k-th row from the end; an [IndexError] (here
    [None]) when the table has fewer than [k] rows. *)
Definition iloc_neg (df : DataFrame) (k : nat) : option Row :=
  let n := length (df_close df) in
  if (n <? k)%nat then None else Some (row_at df (n - k)).

(** Lines 34-71: the two running scores.  Each rule is an [if]/[elif]
    pair, so it adds its weight to at most one of the scores. *)
Definition rsi_rule (latest : Row) (sc : Q * Q) : Q * Q :=
  let '(buy_score, sell_score) := sc in
  if flt (rsi latest) (Fin 30) then (buy_score + 2, sell_score)
  else if fgt (rsi latest) (Fin 70) then (buy_score, sell_score + 2)
  else sc.

Definition macd_rule (latest prev : Row) (sc : Q * Q) : Q * Q :=
  let '(buy_score, sell_score) := sc in
  if fgt (macd latest) (macd_signal latest)
     && fle (macd prev) (macd_signal prev)
  then (buy_score + 2, sell_score)
  else if flt (macd latest) (macd_signal latest)
          && fge (macd prev) (macd_signal prev)
  then (buy_score, sell_score + 2)
  else sc.

Definition bollinger_rule (latest : Row) (sc : Q * Q) : Q * Q :=
  let '(buy_score, sell_score) := sc in
  if flt (r_close latest) (bb_lower latest)
  then (buy_score + 1.5, sell_score)
  else if fgt (r_close latest) (bb_upper latest)
  then (buy_score, sell_score + 1.5)
  else sc.

Definition ema_rule (latest prev : Row) (sc : Q * Q) : Q * Q :=
  let '(buy_score, sell_score) := sc in
  if fgt (ema_fast latest) (ema_slow latest)
     && fle (ema_fast prev) (ema_slow prev)
  then (buy_score + 2, sell_score)
  else if flt (ema_fast latest) (ema_slow latest)
          && fge (ema_fast prev) (ema_slow prev)
  then (buy_score, sell_score + 2)
  else sc.

Definition volume_rule (latest : Row) (sc : Q * Q) : Q * Q :=
  let '(buy_score, sell_score) := sc in
  if (volume_signal latest =? 1)%Z then (buy_score + 1.5, sell_score)
  else if (volume_signal latest =? -1)%Z then (buy_score, sell_score + 1.5)
  else sc.

Definition trend_rule (latest : Row) (sc : Q * Q) : Q * Q :=
  let '(buy_score, sell_score) := sc in
  if fgt (r_close latest) (ema_slow latest) then (buy_score + 1, sell_score)
  else if flt (r_close latest) (ema_slow latest)
  then (buy_score, sell_score + 1)
  else sc.

Definition scores (latest prev : Row) : Q * Q :=
  trend_rule latest
    (volume_rule latest
       (ema_rule latest prev
          (bollinger_rule latest
             (macd_rule latest prev
                (rsi_rule latest (0, 0)))))).

Definition buy_score (latest prev : Row) : Q := fst (scores latest prev).
Definition sell_score (latest prev : Row) : Q := snd (scores latest prev).

(** Lines 73-81: the decision, threshold 5 points. *)
Definition decide (buy sell : Q) : Signal :=
  if Qle_bool 5 buy && Qltb sell buy then BUY
  else if Qle_bool 5 sell && Qltb buy sell then SELL
  else HOLD.

(** Lines 29-81 on the two rows read from the table. *)
Definition score_rows (latest prev : Row) : Signal :=
  decide (buy_score latest prev) (sell_score latest prev).

(** [generate_signal(bars, symbol)].  Reading [df.iloc[-1]] or
    [df.iloc[-2]] from a table that is too short raises, and the
    [except] clause answers HOLD. *)
Definition generate_signal (bars : list Bar) : Signal :=
  let df := indicators bars in
  match iloc_neg df 1, iloc_neg df 2 with
  | Some latest, Some prev => score_rows latest prev
  | _, _ => HOLD
  end.

End TradingStrategy.

(** ** config.py: the risk parameters the backtest reads *)

Record Config : Type := {
  POSITION_SIZE_PCT : Q;
  STOP_LOSS_PCT : Q;
  TAKE_PROFIT_PCT : Q
}.

(** The defaults of [config.py]. *)
Definition default_config : Config :=
  {| POSITION_SIZE_PCT := 0.1; STOP_LOSS_PCT := 2; TAKE_PROFIT_PCT := 4 |}.

(** ** backtest.py *)

Record Position : Type := {
  entry_price : Q;
  shares : Z;
  entry_date : Z
}.

Record Trade : Type := {
  t_entry_date : Z;
  t_exit_date : Z;
  t_entry_price : Q;
  t_exit_price : Q;
  t_shares : Z;
  pnl : Q;
  pnl_pct : fl;
  reason : string
}.

Record Snapshot : Type := {
  date : Z;
  equity : Q
}.

Record Report : Type := {
  initial_capital : Q;
  final_capital : Q;
  total_return : fl;
  total_trades : nat;
  winning_trades : nat;
  losing_trades : nat;
  win_rate : Q;
  avg_win : Q;
  avg_loss : Q;
  profit_factor : Q;
  max_drawdown : fl;
  rep_trades : list Trade;
  rep_equity_curve : list Snapshot
}.

(** The tracking variables of [run_backtest] (lines 41-45). *)
Record State : Type := {
  capital : Q;
  position : option Position;
  trades : list Trade;
  equity_curve : list Snapshot
}.

(** How a call of [run_backtest] ends: it returns [None] or a report, or
    an exception leaves it. *)
Inductive Outcome : Type :=
| Raised
| Returned (results : option Report).

Module Backtester.

(** [df.tail(n)]. *)
Definition tail {A} (n : nat) (l : list A) : list A :=
  skipn (length l - n) l.

Definition new_state (initial : Q) : State :=
  {| capital := initial; position := None;
     trades := []; equity_curve := [] |}.

(** Line 71: the open position's return in percent. *)
Definition position_pnl_pct (current_price : Q) (p : Position) : fl :=
  fmul (fdiv (Fin (current_price - entry_price p)) (Fin (entry_price p)))
       (Fin 100).

(** Lines 73-84: the exit decision, as [(should_exit, exit_reason)]. *)
Definition exit_decision (cfg : Config) (signal : Signal) (pct : fl)
  : bool * string :=
  match signal with
  | SELL => (true, "SELL signal"%string)
  | _ =>
      if fle pct (Fin (- STOP_LOSS_PCT cfg)) then (true, "Stop-loss"%string)
      else if fge pct (Fin (TAKE_PROFIT_PCT cfg))
      then (true, "Take-profit"%string)
      else (false, ""%string)
  end.

Definition close_trade (p : Position) (exit_date : Z) (exit_price : Q)
  (pct : fl) (why : string) : Trade :=
  {| t_entry_date := entry_date p; t_exit_date := exit_date;
     t_entry_price := entry_price p; t_exit_price := exit_price;
     t_shares := shares p;
     pnl := (exit_price - entry_price p) * inject_Z (shares p);
     pnl_pct := pct; reason := why |}.

(** Lines 61-67: a position of [n] shares is opened at the current
    price. *)
Definition open_position (st : State) (n : Z) (current_price : Q)
  (current_date : Z) : State :=
  {| capital := capital st - inject_Z n * current_price;
     position := Some {| entry_price := current_price; shares := n;
                         entry_date := current_date |};
     trades := trades st;
     equity_curve := equity_curve st |}.

(** Lines 86-103: the position is sold and the trade recorded. *)
Definition exit_position (st : State) (p : Position) (current_price : Q)
  (current_date : Z) (pct : fl) (exit_reason : string) : State :=
  {| capital := capital st + inject_Z (shares p) * current_price;
     position := None;
     trades := trades st ++
               [close_trade p current_date current_price pct exit_reason];
     equity_curve := equity_curve st |}.

(** Lines 56-103: the trade execution of one bar, before the equity
    snapshot.  [None] stands for the exception that [int()] raises on
    the non-finite quotient of a zero price. *)
Definition execute (cfg : Config) (signal : Signal) (current_price : Q)
  (current_date : Z) (st : State) : option State :=
  match signal, position st with
  | BUY, None =>
      if Qeq_bool current_price 0 then None
      else
        let n :=
          Qtrunc (capital st * POSITION_SIZE_PCT cfg / current_price) in
        if (0 <? n)%Z
        then Some (open_position st n current_price current_date)
        else Some st
  | _, Some p =>
      let pct := position_pnl_pct current_price p in
      let '(should_exit, exit_reason) := exit_decision cfg signal pct in
      if should_exit
      then Some (exit_position st p current_price current_date pct
                               exit_reason)
      else Some st
  | _, None => Some st
  end.

(** Lines 105-112: the equity snapshot of the bar. *)
Definition track_equity (current_price : Q) (current_date : Z) (st : State)
  : State :=
  let current_equity :=
    match position st with
    | Some p => capital st + inject_Z (shares p) * current_price
    | None => capital st
    end in
  {| capital := capital st; position := position st; trades := trades st;
     equity_curve := equity_curve st ++
                     [{| date := current_date; equity := current_equity |}] |}.

(** The signal of bar [i]: the strategy run on the last 100 rows of
    [bars.iloc[:i+1]]. *)
Definition signal_at (bars : list Bar) (i : nat) : Signal :=
  TradingStrategy.generate_signal (tail 100 (firstn (i + 1) bars)).

(** One iteration of the loop at line 48. *)
Definition step (cfg : Config) (bars : list Bar) (st : State) (i : nat)
  : option State :=
  match nth_error bars i with
  | None => None
  | Some bar =>
      match execute cfg (signal_at bars i) (close bar) (timestamp bar) st with
      | None => None
      | Some st' => Some (track_equity (close bar) (timestamp bar) st')
      end
  end.

Fixpoint loop (cfg : Config) (bars : list Bar) (st : State)
  (indices : list nat) : option State :=
  match indices with
  | [] => Some st
  | i :: rest =>
      match step cfg bars st i with
      | None => None
      | Some st' => loop cfg bars st' rest
      end
  end.

(** [range(100, len(bars))]. *)
Definition bar_indices (bars : list Bar) : list nat :=
  seq 100 (length bars - 100).

(** Lines 114-130: an open position is closed at the last close. *)
Definition close_open_position (bars : list Bar) (st : State) : State :=
  match position st, nth_error bars (length bars - 1) with
  | Some p, Some final_bar =>
      let final_price := close final_bar in
      {| capital := capital st + inject_Z (shares p) * final_price;
         position := position st;
         trades := trades st ++
                   [close_trade p (timestamp final_bar) final_price
                                (position_pnl_pct final_price p)
                                "End of backtest"];
         equity_curve := equity_curve st |}
  | _, _ => st
  end.

(** [equity.cummax()]. *)
Fixpoint cummax_from (peak : Q) (xs : list Q) : list Q :=
  match xs with
  | [] => []
  | x :: xs' =>
      let peak' := if Qltb peak x then x else peak in
      peak' :: cummax_from peak' xs'
  end.

Definition cummax (xs : list Q) : list Q :=
  match xs with
  | [] => []
  | x :: xs' => x :: cummax_from x xs'
  end.

(** [s.min()]: NaN entries are skipped; NaN when nothing is left. *)
Definition series_min (s : Series) : fl :=
  fold_left (fun m x =>
               if is_nan x then m
               else if is_nan m then x
               else if flt x m then x else m)
            s NaN.

Definition drawdown (equities : list Q) : Series :=
  zip_with (fun e peak =>
              fmul (fdiv (Fin (e - peak)) (Fin peak)) (Fin 100))
           equities (cummax equities).

Definition pnls_where (keep : Q -> bool) (ts : list Trade) : list Q :=
  filter keep (map pnl ts).

(** [calculate_statistics(trades, equity_curve, initial_capital,
    final_capital)]. *)
Definition calculate_statistics (ts : list Trade) (curve : list Snapshot)
  (initial final : Q) : option Report :=
  match ts with
  | [] => None
  | _ :: _ =>
      let wins := pnls_where (fun x => Qltb 0 x) ts in
      let losses := pnls_where (fun x => Qltb x 0) ts in
      let n_total := length ts in
      let n_win := length wins in
      let n_loss := length losses in
      let a_win := if (0 <? n_win)%nat then Qmean wins else 0 in
      let a_loss := if (0 <? n_loss)%nat then Qmean losses else 0 in
      Some {| initial_capital := initial;
              final_capital := final;
              total_return :=
                fmul (fdiv (Fin (final - initial)) (Fin initial)) (Fin 100);
              total_trades := n_total;
              winning_trades := n_win;
              losing_trades := n_loss;
              win_rate :=
                if (0 <? n_total)%nat
                then inject_Z (Z.of_nat n_win)
                     / inject_Z (Z.of_nat n_total) * 100
                else 0;
              avg_win := a_win;
              avg_loss := a_loss;
              profit_factor :=
                if Qeq_bool a_loss 0 then 0 else Qabs (a_win / a_loss);
              max_drawdown := series_min (drawdown (map equity curve));
              rep_trades := ts;
              rep_equity_curve := curve |}
  end.

(** The run up to line 130: the data guard of line 37 returns before
    any tracking variable exists; otherwise the loop runs, and an open
    position is closed when it ends. *)
Inductive Run : Type :=
| Insufficient
| Crashed
| Finished (st : State).

Definition simulate (cfg : Config) (bars : option (list Bar)) (initial : Q)
  : Run :=
  match bars with
  | None => Insufficient
  | Some bs =>
      if (length bs <? 100)%nat then Insufficient
      else
        match loop cfg bs (new_state initial) (bar_indices bs) with
        | None => Crashed
        | Some st => Finished (close_open_position bs st)
        end
  end.

(** [run_backtest], given what [get_historical_data] returned. *)
Definition run_backtest (cfg : Config) (bars : option (list Bar))
  (initial : Q) : Outcome :=
  match simulate cfg bars initial with
  | Insufficient => Returned None
  | Crashed => Raised
  | Finished st =>
      Returned (calculate_statistics (trades st) (equity_curve st)
                                     initial (capital st))
  end.

(** What a run has recorded when it ends. *)
Definition recorded_trades (r : Run) : list Trade :=
  match r with
  | Finished st => trades st
  | _ => []
  end.

Definition recorded_equity (r : Run) : list Snapshot :=
  match r with
  | Finished st => equity_curve st
  | _ => []
  end.

End Backtester.

(** ** alpaca_trader.py: [place_order] *)

Inductive OrderSide : Type := OS_BUY | OS_SELL.

Inductive OrderRequest : Type :=
| MarketOrderRequest (symbol : string) (qty : Z) (side : OrderSide)
| LimitOrderRequest (symbol : string) (qty : Z) (side : OrderSide)
                    (limit_price : Q).

Module AlpacaTrader.

Definition lower_ascii (c : ascii) : ascii :=
  let n := nat_of_ascii c in
  if ((65 <=? n) && (n <=? 90))%nat then ascii_of_nat (n + 32) else c.

(** [str.lower()] on ASCII text. *)
Fixpoint lower (s : string) : string :=
  match s with
  | EmptyString => EmptyString
  | String c s' => String (lower_ascii c) (lower s')
  end.

(** Truthiness of the optional [limit_price] argument: [None] and zero
    are false. *)
Definition truthy (limit_price : option Q) : bool :=
  match limit_price with
  | None => false
  | Some p => negb (Qeq_bool p 0)
  end.

(** Line 101: the side of the request. *)
Definition side_of (side : string) : OrderSide :=
  if String.eqb (lower side) "buy" then OS_BUY else OS_SELL.

(** Lines 101-120: the request that is built, if any. *)
Definition build_order (symbol : string) (qty : Z) (side : string)
  (order_type : string) (limit_price : option Q) : option OrderRequest :=
  let order_side := side_of side in
  if String.eqb order_type "market" then
    Some (MarketOrderRequest symbol qty order_side)
  else
    match limit_price with
    | Some p =>
        if String.eqb order_type "limit" && truthy limit_price
        then Some (LimitOrderRequest symbol qty order_side p)
        else None
    | None => None
    end.

Section Sink.
(** The order sink: [submit_order] answers with an order id, or raises
    ([None]). *)
Variable submit_order : OrderRequest -> option Z.

(** [place_order]: the returned order and the requests that reached
    the sink, appended to [sent]. *)
Definition place_order (sent : list OrderRequest) (symbol : string)
  (qty : Z) (side : string) (order_type : string)
  (limit_price : option Q) : option Z * list OrderRequest :=
  match build_order symbol qty side order_type limit_price with
  | None => (None, sent)
  | Some order_data => (submit_order order_data, sent ++ [order_data])
  end.
End Sink.

End AlpacaTrader.

(** ** The scoring table of the specification *)

Module ScorerSpec.
Import TradingStrategy.

(** The weight table of the specification: a condition that holds
    contributes its weight, one that does not contributes nothing. *)
Definition weight_if (cond : bool) (w : Q) : Q := if cond then w else 0.

Definition macd_cross_up (latest prev : Row) : bool :=
  fgt (macd latest) (macd_signal latest)
  && fle (macd prev) (macd_signal prev).

Definition macd_cross_down (latest prev : Row) : bool :=
  flt (macd latest) (macd_signal latest)
  && fge (macd prev) (macd_signal prev).

Definition ema_cross_up (latest prev : Row) : bool :=
  fgt (ema_fast latest) (ema_slow latest)
  && fle (ema_fast prev) (ema_slow prev).

Definition ema_cross_down (latest prev : Row) : bool :=
  flt (ema_fast latest) (ema_slow latest)
  && fge (ema_fast prev) (ema_slow prev).

Definition table_buy_score (latest prev : Row) : Q :=
  weight_if (flt (rsi latest) (Fin 30)) 2
  + weight_if (macd_cross_up latest prev) 2
  + weight_if (flt (r_close latest) (bb_lower latest)) 1.5
  + weight_if (ema_cross_up latest prev) 2
  + weight_if (volume_signal latest =? 1)%Z 1.5
  + weight_if (fgt (r_close latest) (ema_slow latest)) 1.

Definition table_sell_score (latest prev : Row) : Q :=
  weight_if (fgt (rsi latest) (Fin 70)) 2
  + weight_if (macd_cross_down latest prev) 2
  + weight_if (fgt (r_close latest) (bb_upper latest)) 1.5
  + weight_if (ema_cross_down latest prev) 2
  + weight_if (volume_signal latest =? -1)%Z 1.5
  + weight_if (flt (r_close latest) (ema_slow latest)) 1.

(** The common shape of the six rules. *)
Definition apply_rule (w : Q) (cb cs : bool) (sc : Q * Q) : Q * Q :=
  if cb then (fst sc + w, snd sc)
  else if cs then (fst sc, snd sc + w)
  else sc.

(** A rule is live when the indicator values its comparisons read are
    defined.  The Bollinger rule reads the two bands in separate
    comparisons; the volume rule reads [volume_signal], which the pipeline
    derives from [volume_ma]. *)
Definition rsi_live (latest : Row) : bool := negb (is_nan (rsi latest)).

Definition macd_live (latest prev : Row) : bool :=
  negb (is_nan (macd latest) || is_nan (macd_signal latest)
        || is_nan (macd prev) || is_nan (macd_signal prev)).

Definition bollinger_live (latest : Row) : bool :=
  negb (is_nan (bb_lower latest) && is_nan (bb_upper latest)).

Definition ema_live (latest prev : Row) : bool :=
  negb (is_nan (ema_fast latest) || is_nan (ema_slow latest)
        || is_nan (ema_fast prev) || is_nan (ema_slow prev)).

Definition volume_live (latest : Row) : bool :=
  negb (is_nan (volume_ma latest)).

Definition trend_live (latest : Row) : bool :=
  negb (is_nan (ema_slow latest)).

(** The total weight of the live rules. *)
Definition live_weight (latest prev : Row) : Q :=
  weight_if (rsi_live latest) 2
  + weight_if (macd_live latest prev) 2
  + weight_if (bollinger_live latest) 1.5
  + weight_if (ema_live latest prev) 2
  + weight_if (volume_live latest) 1.5
  + weight_if (trend_live latest) 1.

End ScorerSpec.


(** ** Sample data *)

Definition mkbar (t : Z) (c v : Q) : Bar :=
  {| timestamp := t; open := c; high := c; low := c; close := c;
     volume := v |}.

(** An oversold row with bullish MACD and EMA crossovers, and the row
    before it. *)
Definition sample_prev : Row :=
  {| r_close := Fin 97; r_volume := Fin 1000; rsi := Fin 28;
     macd := Fin (-0.4); macd_signal := Fin (-0.3); macd_hist := Fin (-0.1);
     bb_upper := Fin 104; bb_middle := Fin 100; bb_lower := Fin 96;
     ema_fast := Fin 98; ema_slow := Fin 99; volume_ma := Fin 1000;
     volume_signal := 0 |}.

Definition sample_latest : Row :=
  {| r_close := Fin 101; r_volume := Fin 1200; rsi := Fin 29;
     macd := Fin 0.2; macd_signal := Fin (-0.2); macd_hist := Fin 0.4;
     bb_upper := Fin 104; bb_middle := Fin 100; bb_lower := Fin 96;
     ema_fast := Fin 99.5; ema_slow := Fin 99.2; volume_ma := Fin 1000;
     volume_signal := 0 |}.

(** Twenty closes, ten at 99 then ten at 101: mean 100, population
    variance 1, sample variance 20/19. *)
Definition band_bars : list Bar :=
  map (fun i => mkbar (Z.of_nat i) (if (i <? 10)%nat then 99 else 101) 1000)
      (seq 0 20).

(** The 20 closes ending at row [i]. *)
Definition bollinger_window (bars : list Bar) (i : nat) : list Q :=
  firstn 20 (skipn (i + 1 - 20) (map close bars)).

(** ** The RSI window, on rationals *)

(** The close-to-close changes as [calculate_rsi] reads them: the change
    of the first row is undefined and is replaced by 0. *)
Fixpoint close_deltas_from (prev : Q) (cs : list Q) : list Q :=
  match cs with
  | [] => []
  | c :: cs' => (c + - prev) :: close_deltas_from c cs'
  end.

Definition close_deltas (cs : list Q) : list Q :=
  match cs with
  | [] => []
  | c :: cs' => 0 :: close_deltas_from c cs'
  end.

(** The 14 changes ending at row [i]. *)
Definition rsi_window (bars : list Bar) (i : nat) : list Q :=
  firstn 14 (skipn (i + 1 - 14) (close_deltas (map close bars))).

Definition gain_of (d : Q) : Q := if Qltb 0 d then d else 0.
Definition loss_of (d : Q) : Q := - (if Qltb d 0 then d else 0).

(** Lines 92-93 on the two rolling means. *)
Definition rsi_of_means (gain loss : fl) : fl :=
  fsub (Fin 100) (fdiv (Fin 100) (fadd (Fin 1) (fdiv gain loss))).

(** Fifteen bars of flat close. *)
Definition flat_bars_15 : list Bar :=
  map (fun i => mkbar (Z.of_nat i) 100 1000) (seq 0 15).

(** Fifteen bars that never fall and rise once. *)
Definition rising_bars_15 : list Bar :=
  map (fun i => mkbar (Z.of_nat i) (if (i <? 7)%nat then 100 else 101) 1000)
      (seq 0 15).

(** Three bars, far fewer than any rolling window needs. *)
Definition short_bars : list Bar :=
  [mkbar 0 10 1000; mkbar 1 9 1000; mkbar 2 20 1000].


(** One hundred flat bars, a jump that triggers a BUY, a bar that takes
    the profit, and a last bar. *)
Definition sample_run_bars : list Bar :=
  map (fun i => mkbar (Z.of_nat i) 100 1000) (seq 0 100)
  ++ [mkbar 100 110 1000; mkbar 101 120 1000; mkbar 102 90 1000].




(** 102 bars of flat close 100 and constant volume. *)
Definition flat_bars_102 : list Bar :=
  map (fun i => mkbar (Z.of_nat i) 100 1000) (seq 0 102).

(** ** Further definitions *)

(** The number of buy conditions, and of sell conditions, of the scoring
    table that hold on two rows. *)
Definition count_true (bs : list bool) : nat :=
  length (filter (fun b => b) bs).

Definition buy_votes (latest prev : Row) : nat :=
  count_true [flt (rsi latest) (Fin 30);
              ScorerSpec.macd_cross_up latest prev;
              flt (r_close latest) (bb_lower latest);
              ScorerSpec.ema_cross_up latest prev;
              (volume_signal latest =? 1)%Z;
              fgt (r_close latest) (ema_slow latest)].

Definition sell_votes (latest prev : Row) : nat :=
  count_true [fgt (rsi latest) (Fin 70);
              ScorerSpec.macd_cross_down latest prev;
              fgt (r_close latest) (bb_upper latest);
              ScorerSpec.ema_cross_down latest prev;
              (volume_signal latest =? -1)%Z;
              flt (r_close latest) (ema_slow latest)].

(** The 20 volumes ending at row [i]. *)
Definition volume_window (bars : list Bar) (i : nat) : list Q :=
  firstn 20 (skipn (i + 1 - 20) (map volume bars)).

(** The ledger is solvent: the cash is not negative, an open position
    holds at least one share, no equity snapshot is negative and every
    trade covers at least one share. *)
Definition solvent (st : State) : Prop :=
  0 <= capital st /\
  (forall p, position st = Some p -> (1 <= shares p)%Z) /\
  Forall (fun s => 0 <= equity s) (equity_curve st) /\
  Forall (fun t => (1 <= t_shares t)%Z) (trades st).

Definition all_closes_positive (bars : list Bar) : bool :=
  forallb (fun b => Qltb 0 (close b)) bars.

(** The recorded reason of a trade matches the condition that closed it. *)
Definition exit_justified (cfg : Config) (t : Trade) : Prop :=
  reason t = "SELL signal"%string \/
  (reason t = "Stop-loss"%string /\
   fle (pnl_pct t) (Fin (- STOP_LOSS_PCT cfg)) = true) \/
  (reason t = "Take-profit"%string /\
   fge (pnl_pct t) (Fin (TAKE_PROFIT_PCT cfg)) = true /\
   fle (pnl_pct t) (Fin (- STOP_LOSS_PCT cfg)) = false) \/
  reason t = "End of backtest"%string.

(** 1 while a position is open, 0 otherwise. *)
Definition open_count (st : State) : nat :=
  match position st with
  | Some _ => 1
  | None => 0
  end.

(** A winning and a losing trade, and an equity curve that dips. *)
Definition sample_trades : list Trade :=
  [ {| t_entry_date := 100; t_exit_date := 101; t_entry_price := 110;
       t_exit_price := 120; t_shares := 9; pnl := 90;
       pnl_pct := Fin (100 # 11); reason := "Take-profit" |};
    {| t_entry_date := 102; t_exit_date := 103; t_entry_price := 100;
       t_exit_price := 97; t_shares := 10; pnl := -30;
       pnl_pct := Fin (-3); reason := "Stop-loss" |} ].

Definition sample_curve : list Snapshot :=
  [ {| date := 100; equity := 10000 |}; {| date := 101; equity := 10090 |};
    {| date := 102; equity := 10090 |}; {| date := 103; equity := 10060 |} ].

(** ** main.py: one tick of the live driver *)

(** What the broker reports about a held position and the account; the
    numeric strings of the API are taken as already parsed by [float]. *)
Record LivePosition : Type := {
  lp_qty : Q;
  avg_entry_price : Q
}.

Record Account : Type := {
  buying_power : Q
}.

(** The answers of the broker during one tick.  [None] stands for the
    [None] that [AlpacaTrader] returns after a failed call, and for
    [submit_order] for the exception the client raises. *)
Record Broker : Type := {
  get_bars : string -> option (list Bar);
  get_position : string -> option LivePosition;
  get_account : option Account;
  submit_order : OrderRequest -> option Z
}.

(** An entry of [TradingBot.active_positions]. *)
Record ActivePosition : Type := {
  ap_entry_price : Q;
  ap_qty : Z;
  ap_entry_time : Z
}.

(** A Python dict with string keys: assignment replaces the value of a
    present key in place and appends a new key. *)
Fixpoint dict_set {V} (k : string) (v : V) (d : list (string * V))
  : list (string * V) :=
  match d with
  | [] => [(k, v)]
  | (k', v') :: d' =>
      if String.eqb k k' then (k, v) :: d' else (k', v') :: dict_set k v d'
  end.

Fixpoint dict_get {V} (k : string) (d : list (string * V)) : option V :=
  match d with
  | [] => None
  | (k', v') :: d' => if String.eqb k k' then Some v' else dict_get k d'
  end.

(** [if k in d: del d[k]]. *)
Fixpoint dict_del {V} (k : string) (d : list (string * V))
  : list (string * V) :=
  match d with
  | [] => []
  | (k', v') :: d' =>
      if String.eqb k k' then dict_del k d' else (k', v') :: dict_del k d'
  end.

(** The bot: the requests that reached the order sink so far, and
    [active_positions]. *)
Record Bot : Type := {
  sent : list OrderRequest;
  active_positions : list (string * ActivePosition)
}.

Module TradingBot.

Section Tick.
Variable cfg : Config.
Variable broker : Broker.
(** [datetime.now()] of the tick. *)
Variable now : Z.

(** [execute_buy(symbol, price)].  A missing account, and the [int()] of
    the non-finite quotient of a zero price, raise inside the [try]; the
    handler logs and nothing else happens. *)
Definition execute_buy (bot : Bot) (symbol : string) (price : Q) : Bot :=
  match get_account broker with
  | None => bot
  | Some account =>
      if Qeq_bool price 0 then bot
      else
        let position_size :=
          Qtrunc (buying_power account * POSITION_SIZE_PCT cfg / price) in
        if (position_size <? 1)%Z then bot
        else
          let '(order, sent') :=
            AlpacaTrader.place_order (submit_order broker) (sent bot) symbol
                                     position_size "buy" "market" None in
          match order with
          | Some _ =>
              {| sent := sent';
                 active_positions :=
                   dict_set symbol
                            {| ap_entry_price := price;
                               ap_qty := position_size;
                               ap_entry_time := now |}
                            (active_positions bot) |}
          | None => {| sent := sent';
                       active_positions := active_positions bot |}
          end
  end.

(** [execute_sell(symbol, price, position)]. *)
Definition execute_sell (bot : Bot) (symbol : string) (price : Q)
  (pos : LivePosition) : Bot :=
  let qty := Qtrunc (lp_qty pos) in
  let '(order, sent') :=
    AlpacaTrader.place_order (submit_order broker) (sent bot) symbol qty
                             "sell" "market" None in
  match order with
  | Some _ =>
      {| sent := sent';
         active_positions := dict_del symbol (active_positions bot) |}
  | None => {| sent := sent'; active_positions := active_positions bot |}
  end.

(** [check_exit_conditions(symbol, current_price, position)]. *)
Definition check_exit_conditions (bot : Bot) (symbol : string)
  (current_price : Q) (pos : LivePosition) : Bot :=
  let entry_price := avg_entry_price pos in
  let pnl_pct :=
    fmul (fdiv (Fin (current_price - entry_price)) (Fin entry_price))
         (Fin 100) in
  if fle pnl_pct (Fin (- STOP_LOSS_PCT cfg))
  then execute_sell bot symbol current_price pos
  else if fge pnl_pct (Fin (TAKE_PROFIT_PCT cfg))
  then execute_sell bot symbol current_price pos
  else bot.

(** [process_symbol(symbol)]. *)
Definition process_symbol (bot : Bot) (symbol : string) : Bot :=
  match get_bars broker symbol with
  | None => bot
  | Some bars =>
      if (length bars =? 0)%nat then bot
      else
        let position := get_position broker symbol in
        let current_price := last (map close bars) 0 in
        let signal := TradingStrategy.generate_signal bars in
        match signal, position with
        | BUY, None => execute_buy bot symbol current_price
        | SELL, Some pos => execute_sell bot symbol current_price pos
        | _, Some pos => check_exit_conditions bot symbol current_price pos
        | _, None => bot
        end
  end.

End Tick.

End TradingBot.

(** A broker that holds ten shares bought at 100 and accepts every
    order; the last of its bars closed at 97. *)
Definition falling_bars : list Bar :=
  map (fun i => mkbar (Z.of_nat i) 100 1000) (seq 0 99)
  ++ [mkbar 99 97 1000].

Definition sample_broker : Broker :=
  {| get_bars := fun _ => Some falling_bars;
     get_position := fun _ => Some {| lp_qty := 10; avg_entry_price := 100 |};
     get_account := Some {| buying_power := 10000 |};
     submit_order := fun _ => Some 1%Z |}.

Definition empty_bot : Bot := {| sent := []; active_positions := [] |}.

(** ** Undefined indicators: sample data *)

(** Three bars that end in a collapse. *)
Definition short_bars_down : list Bar :=
  [mkbar 0 10 1000; mkbar 1 11 1000; mkbar 2 1 1000].

(** A row below its lower band on high volume, whose RSI, MACD and EMA
    values are undefined. *)
Definition undefined_latest : Row :=
  {| r_close := Fin 95; r_volume := Fin 2000; rsi := NaN;
     macd := NaN; macd_signal := NaN; macd_hist := NaN;
     bb_upper := Fin 104; bb_middle := Fin 100; bb_lower := Fin 96;
     ema_fast := NaN; ema_slow := NaN; volume_ma := Fin 1000;
     volume_signal := 1 |}.

(** The decision left to the MACD crossover, the EMA crossover and the
    trend rule when no other rule can fire: 2 + 2 + 1 points. *)
Definition three_rule_decision (latest prev : Row) : Signal :=
  if ScorerSpec.macd_cross_up latest prev
     && ScorerSpec.ema_cross_up latest prev
     && fgt (r_close latest) (ema_slow latest)
  then BUY
  else if ScorerSpec.macd_cross_down latest prev
          && ScorerSpec.ema_cross_down latest prev
          && flt (r_close latest) (ema_slow latest)
  then SELL
  else HOLD.

(** ** The ledger arithmetic on doubles *)

(** The rest of this file computes the ledger on exact rationals.  The
    program computes it on binary64 values, rounding after every
    operation; this module replays the four arithmetic lines of the
    ledger on the machine's doubles. *)
Module DoubleLedger.
Import PrimFloat.
Local Open Scope float_scope.







End DoubleLedger.
(** * Properties *)

(** ** Comparisons *)

Lemma Qltb_lt (x y : Q) : Qltb x y = true <-> x < y.
Proof.
  unfold Qltb. rewrite negb_true_iff. split; intro H.
  - apply Qnot_le_lt. intro Hle. apply Qle_bool_iff in Hle. congruence.
  - destruct (Qle_bool y x) eqn:E; [|reflexivity].
    apply Qle_bool_iff in E. exfalso. apply (Qlt_not_le _ _ H E).
Qed.

Lemma Qltb_ge (x y : Q) : Qltb x y = false <-> y <= x.
Proof.
  unfold Qltb. rewrite negb_false_iff. apply Qle_bool_iff.
Qed.

Lemma Qle_bool_gt (x y : Q) : Qle_bool x y = false <-> y < x.
Proof.
  rewrite <- Qltb_lt. unfold Qltb. rewrite negb_true_iff. reflexivity.
Qed.

Lemma Qeq_bool_false (x y : Q) : Qeq_bool x y = false <-> ~ x == y.
Proof.
  split; intro H.
  - intro E. apply Qeq_bool_iff in E. congruence.
  - destruct (Qeq_bool x y) eqn:E; [|reflexivity].
    apply Qeq_bool_iff in E. contradiction.
Qed.

Lemma flt_asym (a b : fl) : flt a b = true -> flt b a = false.
Proof.
  destruct a, b; simpl; try congruence.
  rewrite Qltb_lt, Qltb_ge. apply Qlt_le_weak.
Qed.

Lemma flt_trans (a b c : fl) :
  flt a b = true -> flt b c = true -> flt a c = true.
Proof.
  destruct a, b, c; simpl; try congruence.
  rewrite !Qltb_lt. apply Qlt_trans.
Qed.

Lemma flt_nan_l (a : fl) : flt NaN a = false.
Proof. destruct a; reflexivity. Qed.

Lemma flt_nan_r (a : fl) : flt a NaN = false.
Proof. destruct a; reflexivity. Qed.

Lemma fle_nan_l (a : fl) : fle NaN a = false.
Proof. destruct a; reflexivity. Qed.

Lemma fle_nan_r (a : fl) : fle a NaN = false.
Proof. destruct a; reflexivity. Qed.

(** ** The signal scorer *)

Module ScorerFacts.
Import TradingStrategy ScorerSpec.

Lemma apply_rule_sums (w : Q) (cb cs : bool) (sc : Q * Q) :
  cb && cs = false ->
  fst (apply_rule w cb cs sc) == fst sc + weight_if cb w /\
  snd (apply_rule w cb cs sc) == snd sc + weight_if cs w.
Proof.
  unfold apply_rule, weight_if.
  destruct cb, cs; simpl; intro H; try discriminate; split; ring.
Qed.

Lemma rsi_rule_shape latest sc :
  rsi_rule latest sc =
  apply_rule 2 (flt (rsi latest) (Fin 30)) (fgt (rsi latest) (Fin 70)) sc.
Proof. destruct sc; reflexivity. Qed.

Lemma macd_rule_shape latest prev sc :
  macd_rule latest prev sc =
  apply_rule 2 (macd_cross_up latest prev) (macd_cross_down latest prev) sc.
Proof. destruct sc; reflexivity. Qed.

Lemma bollinger_rule_shape latest sc :
  bollinger_rule latest sc =
  apply_rule 1.5 (flt (r_close latest) (bb_lower latest))
                 (fgt (r_close latest) (bb_upper latest)) sc.
Proof. destruct sc; reflexivity. Qed.

Lemma ema_rule_shape latest prev sc :
  ema_rule latest prev sc =
  apply_rule 2 (ema_cross_up latest prev) (ema_cross_down latest prev) sc.
Proof. destruct sc; reflexivity. Qed.

Lemma volume_rule_shape latest sc :
  volume_rule latest sc =
  apply_rule 1.5 (volume_signal latest =? 1)%Z
                 (volume_signal latest =? -1)%Z sc.
Proof. destruct sc; reflexivity. Qed.

Lemma trend_rule_shape latest sc :
  trend_rule latest sc =
  apply_rule 1 (fgt (r_close latest) (ema_slow latest))
               (flt (r_close latest) (ema_slow latest)) sc.
Proof. destruct sc; reflexivity. Qed.

(** The two sides of a rule exclude each other. *)
Lemma lt_gt_exclusive (a b : fl) : fgt a b && flt a b = false.
Proof.
  unfold fgt. destruct (flt b a) eqn:E; [|reflexivity].
  simpl. apply flt_asym. exact E.
Qed.

Lemma rsi_exclusive (x : fl) : flt x (Fin 30) && fgt x (Fin 70) = false.
Proof.
  unfold fgt. destruct (flt x (Fin 30)) eqn:E1; [|reflexivity].
  destruct (flt (Fin 70) x) eqn:E2; [|reflexivity].
  pose proof (flt_trans _ _ _ E2 E1) as H. discriminate H.
Qed.

Lemma cross_exclusive (a b c d : fl) :
  (fgt a b && fle c d) && (flt a b && fge c d) = false.
Proof.
  pose proof (lt_gt_exclusive a b) as H.
  destruct (fgt a b), (flt a b), (fle c d), (fge c d);
    simpl in *; congruence.
Qed.

Lemma bands_exclusive (c lo up : fl) :
  flt up lo = false -> flt c lo && fgt c up = false.
Proof.
  intro H. unfold fgt.
  destruct (flt c lo) eqn:E1; [|reflexivity].
  destruct (flt up c) eqn:E2; [|reflexivity].
  rewrite (flt_trans _ _ _ E2 E1) in H. discriminate H.
Qed.

Lemma volume_exclusive (z : Z) : ((z =? 1) && (z =? -1))%Z = false.
Proof.
  destruct (z =? 1)%Z eqn:E; [|reflexivity].
  apply Z.eqb_eq in E. subst z. reflexivity.
Qed.

(** The running scores of the code are the sums of the weight table,
    for a row whose Bollinger bands are not inverted. *)
Lemma scores_as_sums (latest prev : Row) :
  flt (bb_upper latest) (bb_lower latest) = false ->
  buy_score latest prev == table_buy_score latest prev /\
  sell_score latest prev == table_sell_score latest prev.
Proof.
  intro Hbands.
  unfold buy_score, sell_score, scores.
  rewrite trend_rule_shape, volume_rule_shape, ema_rule_shape,
    bollinger_rule_shape, macd_rule_shape, rsi_rule_shape.
  unfold table_buy_score, table_sell_score.
  destruct (apply_rule_sums 2 _ _ (0, 0) (rsi_exclusive (rsi latest)))
    as [B1 S1].
  destruct (apply_rule_sums 2 _ _
              (apply_rule 2 (flt (rsi latest) (Fin 30))
                            (fgt (rsi latest) (Fin 70)) (0, 0))
              (cross_exclusive (macd latest) (macd_signal latest)
                               (macd prev) (macd_signal prev)))
    as [B2 S2].
  fold (macd_cross_up latest prev) in B2, S2.
  fold (macd_cross_down latest prev) in B2, S2.
  set (sc2 := apply_rule 2 (macd_cross_up latest prev)
                (macd_cross_down latest prev) _) in *.
  destruct (apply_rule_sums 1.5 _ _ sc2
              (bands_exclusive (r_close latest) _ _ Hbands)) as [B3 S3].
  set (sc3 := apply_rule 1.5 _ _ sc2) in *.
  destruct (apply_rule_sums 2 _ _ sc3
              (cross_exclusive (ema_fast latest) (ema_slow latest)
                               (ema_fast prev) (ema_slow prev)))
    as [B4 S4].
  fold (ema_cross_up latest prev) in B4, S4.
  fold (ema_cross_down latest prev) in B4, S4.
  set (sc4 := apply_rule 2 (ema_cross_up latest prev) _ sc3) in *.
  destruct (apply_rule_sums 1.5 _ _ sc4
              (volume_exclusive (volume_signal latest))) as [B5 S5].
  set (sc5 := apply_rule 1.5 _ _ sc4) in *.
  destruct (apply_rule_sums 1 _ _ sc5
              (lt_gt_exclusive (r_close latest) (ema_slow latest)))
    as [B6 S6].
  split.
  - rewrite B6, B5, B4, B3, B2, B1. simpl fst. ring.
  - rewrite S6, S5, S4, S3, S2, S1. simpl snd. ring.
Qed.

(** The decision on two scores. *)
Lemma decide_buy (b s : Q) : decide b s = BUY <-> 5 <= b /\ s < b.
Proof.
  unfold decide.
  destruct (Qle_bool 5 b) eqn:E1; destruct (Qltb s b) eqn:E2; simpl.
  - apply Qle_bool_iff in E1. apply Qltb_lt in E2. tauto.
  - apply Qltb_ge in E2.
    destruct (Qle_bool 5 s && Qltb b s); split; try discriminate;
      intros [_ H]; exfalso; apply (Qlt_not_le _ _ H E2).
  - apply Qle_bool_gt in E1.
    destruct (Qle_bool 5 s && Qltb b s); split; try discriminate;
      intros [H _]; exfalso; apply (Qlt_not_le _ _ E1 H).
  - apply Qle_bool_gt in E1.
    destruct (Qle_bool 5 s && Qltb b s); split; try discriminate;
      intros [H _]; exfalso; apply (Qlt_not_le _ _ E1 H).
Qed.

Lemma decide_sell (b s : Q) : decide b s = SELL <-> 5 <= s /\ b < s.
Proof.
  unfold decide.
  destruct (Qle_bool 5 b && Qltb s b) eqn:E0.
  - apply andb_true_iff in E0. destruct E0 as [_ E0].
    apply Qltb_lt in E0. split; [discriminate|].
    intros [_ H]. exfalso. apply (Qlt_not_le _ _ H). apply Qlt_le_weak, E0.
  - destruct (Qle_bool 5 s) eqn:E1; destruct (Qltb b s) eqn:E2; simpl.
    + apply Qle_bool_iff in E1. apply Qltb_lt in E2. tauto.
    + apply Qltb_ge in E2. split; [discriminate|].
      intros [_ H]. exfalso. apply (Qlt_not_le _ _ H E2).
    + apply Qle_bool_gt in E1. split; [discriminate|].
      intros [H _]. exfalso. apply (Qlt_not_le _ _ E1 H).
    + apply Qle_bool_gt in E1. split; [discriminate|].
      intros [H _]. exfalso. apply (Qlt_not_le _ _ E1 H).
Qed.

Lemma decide_hold (b s : Q) :
  decide b s = HOLD <-> ~ (5 <= b /\ s < b) /\ ~ (5 <= s /\ b < s).
Proof.
  rewrite <- decide_buy, <- decide_sell.
  destruct (decide b s); split; intro H; try discriminate.
  - destruct H as [H _]. exfalso. apply H. reflexivity.
  - destruct H as [_ H]. exfalso. apply H. reflexivity.
  - split; discriminate.
  - reflexivity.
Qed.

End ScorerFacts.

Section ScorerClaims.
Import TradingStrategy ScorerSpec ScorerFacts.

(** C1.  For two indicator rows whose Bollinger bands are not inverted
    (the upper band is not below the lower one, which holds for every
    row the pipeline computes), the scorer answers BUY exactly when the
    buy score is at least 5 and exceeds the sell score, SELL exactly when
    the sell score is at least 5 and exceeds the buy score, and HOLD in
    every other case, so also on a tie; the scores are the sums of the
    weights 2, 2, 1.5, 2, 1.5 and 1 of the conditions that hold. *)
Theorem scorer_decision (latest prev : Row) :
  flt (bb_upper latest) (bb_lower latest) = false ->
  let b := table_buy_score latest prev in
  let s := table_sell_score latest prev in
  (score_rows latest prev = BUY <-> 5 <= b /\ s < b) /\
  (score_rows latest prev = SELL <-> 5 <= s /\ b < s) /\
  (score_rows latest prev = HOLD <->
     ~ (5 <= b /\ s < b) /\ ~ (5 <= s /\ b < s)) /\
  (b == s -> score_rows latest prev = HOLD).
Proof.
  intros Hbands b s.
  destruct (scores_as_sums latest prev Hbands) as [Hb Hs].
  fold b in Hb. fold s in Hs. unfold score_rows.
  rewrite decide_buy, decide_sell, decide_hold, Hb, Hs.
  split; [tauto|]. split; [tauto|]. split; [tauto|].
  intro E. rewrite E. split; intros [_ H]; apply (Qlt_irrefl _ H).
Qed.

Lemma scorer_decision_witness :
  flt (bb_upper sample_latest) (bb_lower sample_latest) = false /\
  score_rows sample_latest sample_prev = BUY.
Proof.
  split; [reflexivity|].
  apply (scorer_decision sample_latest sample_prev eq_refl).
  split; [apply Qle_bool_iff | apply Qltb_lt]; reflexivity.
Defined.

End ScorerClaims.

(** ** Columns *)

Lemma zip_with_length {A B C} (f : A -> B -> C) (xs : list A) (ys : list B) :
  length (zip_with f xs ys) = Nat.min (length xs) (length ys).
Proof.
  revert ys. induction xs as [|x xs IH]; intros [|y ys]; simpl; auto.
Qed.

Lemma nth_zip_with {A B C} (f : A -> B -> C) (xs : list A) (ys : list B)
  (i : nat) (dx : A) (dy : B) (d : C) :
  (i < length xs)%nat -> (i < length ys)%nat ->
  nth i (zip_with f xs ys) d = f (nth i xs dx) (nth i ys dy).
Proof.
  revert ys i. induction xs as [|x xs IH]; intros [|y ys] [|i]; simpl;
    intros Hx Hy; try lia; auto.
  apply IH; lia.
Qed.

Lemma nth_map_in {A B} (f : A -> B) (l : list A) (i : nat) (da : A) (db : B) :
  (i < length l)%nat -> nth i (map f l) db = f (nth i l da).
Proof.
  revert i. induction l as [|x l IH]; intros [|i]; simpl; intro H;
    try lia; auto.
  apply IH. lia.
Qed.

Lemma rolling_length (w : nat) (agg : list Q -> fl) (s : Series) :
  length (rolling w agg s) = length s.
Proof. unfold rolling. rewrite length_map, length_seq. reflexivity. Qed.

Lemma rolling_mean_length (w : nat) (s : Series) :
  length (rolling_mean w s) = length s.
Proof. apply rolling_length. Qed.

Lemma rolling_std_length (w : nat) (s : Series) :
  length (rolling_std w s) = length s.
Proof. apply rolling_length. Qed.

Lemma all_finite_map_Fin (qs : list Q) : all_finite (map Fin qs) = Some qs.
Proof.
  induction qs as [|q qs IH]; simpl; [reflexivity|]. rewrite IH. reflexivity.
Qed.

Lemma firstn_map_comm {A B} (f : A -> B) (n : nat) (l : list A) :
  firstn n (map f l) = map f (firstn n l).
Proof.
  revert l. induction n as [|n IH]; intros [|x l]; simpl; auto.
  rewrite IH. reflexivity.
Qed.

Lemma skipn_map_comm {A B} (f : A -> B) (n : nat) (l : list A) :
  skipn n (map f l) = map f (skipn n l).
Proof.
  revert l. induction n as [|n IH]; intros [|x l]; simpl; auto.
Qed.

(** Row [i] of a rolling aggregate over a finite column, once the window
    is full. *)
Lemma nth_rolling_full (w : nat) (agg : list Q -> fl) (qs : list Q)
  (i : nat) :
  (w <= i + 1)%nat -> (i < length qs)%nat ->
  nth i (rolling w agg (map Fin qs)) NaN
  = agg (firstn w (skipn (i + 1 - w) qs)).
Proof.
  intros Hw Hi. unfold rolling.
  rewrite (nth_map_in _ _ _ 0%nat) by (rewrite length_seq, length_map; exact Hi).
  rewrite seq_nth by (rewrite length_map; exact Hi). simpl.
  unfold window.
  destruct (i + 1 <? w)%nat eqn:E; [apply Nat.ltb_lt in E; lia|].
  rewrite skipn_map_comm, firstn_map_comm, all_finite_map_Fin. reflexivity.
Qed.

(** Before that the row is NaN. *)
Lemma nth_rolling_short (w : nat) (agg : list Q -> fl) (s : Series)
  (i : nat) :
  (i + 1 < w)%nat -> nth i (rolling w agg s) NaN = NaN.
Proof.
  intro Hw. destruct (Nat.lt_ge_cases i (length s)) as [Hi|Hi].
  - unfold rolling.
    rewrite (nth_map_in _ _ _ 0%nat) by (rewrite length_seq; exact Hi).
    rewrite seq_nth by exact Hi. simpl. unfold window.
    destruct (i + 1 <? w)%nat eqn:E; [reflexivity|].
    apply Nat.ltb_ge in E. lia.
  - apply nth_overflow. rewrite rolling_length. exact Hi.
Qed.

Lemma window_length {A} (w i : nat) (l : list A) :
  (w <= i + 1)%nat -> (i < length l)%nat ->
  length (firstn w (skipn (i + 1 - w) l)) = w.
Proof.
  intros Hw Hi. rewrite length_firstn, length_skipn. lia.
Qed.

(** ** Bollinger bands *)

Section Bollinger.
Import TradingStrategy.

Lemma close_column (bars : list Bar) :
  map (fun b => Fin (close b)) bars = map Fin (map close bars).
Proof. rewrite map_map. reflexivity. Qed.

Lemma indicators_bb_middle (bars : list Bar) :
  df_bb_middle (indicators bars)
  = rolling_mean 20 (map (fun b => Fin (close b)) bars).
Proof. reflexivity. Qed.

Lemma indicators_bb_upper (bars : list Bar) :
  df_bb_upper (indicators bars)
  = zip_with fadd (rolling_mean 20 (map (fun b => Fin (close b)) bars))
      (map (fun s => fmul s (Fin 2))
           (rolling_std 20 (map (fun b => Fin (close b)) bars))).
Proof. reflexivity. Qed.

Lemma indicators_bb_lower (bars : list Bar) :
  df_bb_lower (indicators bars)
  = zip_with fsub (rolling_mean 20 (map (fun b => Fin (close b)) bars))
      (map (fun s => fmul s (Fin 2))
           (rolling_std 20 (map (fun b => Fin (close b)) bars))).
Proof. reflexivity. Qed.

(** The three band columns at a row whose window is full. *)
Lemma bollinger_at (bars : list Bar) (i : nat) :
  (19 <= i)%nat -> (i < length bars)%nat ->
  let win := bollinger_window bars i in
  let r := row_at (indicators bars) i in
  bb_middle r = Fin (Qmean win) /\
  bb_upper r = Fin (Qmean win + Qsqrt (Qvar 1 win) * 2) /\
  bb_lower r = Fin (Qmean win + - (Qsqrt (Qvar 1 win) * 2)) /\
  Qmean win == Qsum win / 20 /\
  Qvar 1 win == Qssd win / 19.
Proof.
  intros Hlo Hhi win r.
  assert (Hlen : length win = 20%nat).
  { unfold win, bollinger_window. apply window_length; [lia|].
    rewrite length_map. exact Hhi. }
  assert (Hmid : nth i (rolling_mean 20 (map (fun b => Fin (close b)) bars))
                     NaN = Fin (Qmean win)).
  { rewrite close_column. unfold rolling_mean.
    rewrite nth_rolling_full; [reflexivity|lia|]. rewrite length_map. exact Hhi. }
  assert (Hstd : nth i (rolling_std 20 (map (fun b => Fin (close b)) bars))
                     NaN = Fin (Qsqrt (Qvar 1 win))).
  { rewrite close_column. unfold rolling_std.
    rewrite nth_rolling_full; [|lia|rewrite length_map; exact Hhi].
    fold (bollinger_window bars i). fold win. rewrite Hlen. reflexivity. }
  assert (Hw : nth i (map (fun s => fmul s (Fin 2))
                        (rolling_std 20 (map (fun b => Fin (close b)) bars)))
                   NaN = Fin (Qsqrt (Qvar 1 win) * 2)).
  { rewrite (nth_map_in _ _ _ NaN)
      by (rewrite rolling_std_length, length_map; exact Hhi).
    rewrite Hstd. reflexivity. }
  unfold r, row_at, bb_middle, bb_upper, bb_lower.
  rewrite indicators_bb_middle, indicators_bb_upper, indicators_bb_lower.
  split; [exact Hmid|].
  split.
  { rewrite (nth_zip_with _ _ _ _ NaN NaN)
      by (rewrite ?length_map, ?rolling_mean_length, ?rolling_std_length,
           ?length_map; exact Hhi).
    rewrite Hmid, Hw. reflexivity. }
  split.
  { rewrite (nth_zip_with _ _ _ _ NaN NaN)
      by (rewrite ?length_map, ?rolling_mean_length, ?rolling_std_length,
           ?length_map; exact Hhi).
    rewrite Hmid, Hw. reflexivity. }
  unfold Qmean, Qvar, Qlen. rewrite Hlen. split; reflexivity.
Qed.

(** C7, as the code has it.  For every bar whose 20-bar window is full the
    middle band is the simple moving average of close over the window and
    the upper and lower bands are the middle band plus and minus twice the
    rolling sample standard deviation, whose variance divides the sum of
    squared deviations by n - 1 = 19. *)
Theorem bollinger_bands_sample_std (bars : list Bar) (i : nat) :
  (19 <= i)%nat -> (i < length bars)%nat ->
  let win := bollinger_window bars i in
  let r := row_at (indicators bars) i in
  bb_middle r = Fin (Qmean win) /\
  bb_upper r = Fin (Qmean win + Qsqrt (Qvar 1 win) * 2) /\
  bb_lower r = Fin (Qmean win + - (Qsqrt (Qvar 1 win) * 2)) /\
  Qmean win == Qsum win / 20 /\
  Qvar 1 win == Qssd win / 19.
Proof. exact (bollinger_at bars i). Qed.

Lemma bollinger_bands_sample_std_witness :
  bb_upper (row_at (indicators band_bars) 19)
  = Fin (Qmean (bollinger_window band_bars 19)
         + Qsqrt (Qvar 1 (bollinger_window band_bars 19)) * 2).
Proof.
  apply (bollinger_bands_sample_std band_bars 19); vm_compute; lia.
Defined.

(** C7 as stated fails: on ten closes at 99 followed by ten at 101 the
    population standard deviation is 1, so the stated upper band is 102,
    and the computed upper band lies above it. *)
Lemma bollinger_not_population_std :
  let win := bollinger_window band_bars 19 in
  let r := row_at (indicators band_bars) 19 in
  Qmean win == 100 /\ Qvar 0 win == 1 /\ Qsqrt (Qvar 0 win) == 1 /\
  ~ feq (bb_upper r) (Fin (Qmean win + Qsqrt (Qvar 0 win) * 2)) /\
  flt (Fin 102) (bb_upper r) = true /\
  flt (bb_lower r) (Fin 98) = true.
Proof.
  vm_compute. repeat split; try reflexivity. intro H. discriminate H.
Qed.

Lemma Qsqrt_nonneg (q : Q) : 0 <= Qsqrt q.
Proof.
  unfold Qsqrt, Qle. simpl. rewrite Z.mul_1_r. apply Z.sqrt_nonneg.
Qed.

(** The upper band of a pipeline row is never below its lower band. *)
Lemma bands_not_inverted (bars : list Bar) (i : nat) :
  flt (bb_upper (row_at (indicators bars) i))
      (bb_lower (row_at (indicators bars) i)) = false.
Proof.
  destruct (Nat.lt_ge_cases i (length bars)) as [Hi|Hi].
  - destruct (Nat.le_gt_cases 19 i) as [Hw|Hw].
    + destruct (bollinger_at bars i Hw Hi)
        as [_ [Eu [El _]]].
      rewrite Eu, El. simpl. apply Qltb_ge.
      pose proof (Qsqrt_nonneg (Qvar 1 (bollinger_window bars i))). lra.
    + unfold row_at, bb_upper. rewrite indicators_bb_upper.
      rewrite (nth_zip_with _ _ _ _ NaN NaN)
        by (rewrite ?length_map, ?rolling_mean_length, ?rolling_std_length,
             ?length_map; exact Hi).
      unfold rolling_mean at 1. rewrite nth_rolling_short by lia.
      reflexivity.
  - unfold row_at, bb_upper. rewrite indicators_bb_upper.
    rewrite nth_overflow; [reflexivity|].
    rewrite zip_with_length, rolling_mean_length, length_map. lia.
Qed.

(** On a table of at least two rows the signal is the scorer's decision
    on the last two rows, and the bands of the last row are not
    inverted. *)
Lemma generate_signal_rows (bars : list Bar) :
  (2 <= length bars)%nat ->
  let latest := row_at (indicators bars) (length bars - 1) in
  let prev := row_at (indicators bars) (length bars - 2) in
  generate_signal bars = score_rows latest prev /\
  flt (bb_upper latest) (bb_lower latest) = false.
Proof.
  intros Hlen latest prev. split; [|apply bands_not_inverted].
  unfold generate_signal, iloc_neg.
  change (length (df_close (indicators bars)))
    with (length (map (fun b => Fin (close b)) bars)).
  rewrite length_map.
  destruct (length bars <? 1)%nat eqn:E1;
    [apply Nat.ltb_lt in E1; lia|].
  destruct (length bars <? 2)%nat eqn:E2;
    [apply Nat.ltb_lt in E2; lia|].
  reflexivity.
Qed.

End Bollinger.

(** ** RSI *)

Section RSI.
Import TradingStrategy.

Lemma diff_from (cs : list Q) (p : Q) :
  zip_with fsub (map Fin cs) (Fin p :: removelast (map Fin cs))
  = map Fin (close_deltas_from p cs).
Proof.
  revert p. induction cs as [|c cs IH]; intro p; [reflexivity|].
  simpl map. cbn [zip_with close_deltas_from map]. f_equal.
  destruct cs as [|c' cs]; [reflexivity|].
  change (removelast (Fin c :: map Fin (c' :: cs)))
    with (Fin c :: removelast (map Fin (c' :: cs))).
  apply IH.
Qed.

Lemma diff_closes (c : Q) (cs : list Q) :
  diff (map Fin (c :: cs)) = NaN :: map Fin (close_deltas_from c cs).
Proof.
  unfold diff, shift1. simpl map. cbn [zip_with]. f_equal.
  destruct cs as [|c' cs]; [reflexivity|].
  change (removelast (Fin c :: map Fin (c' :: cs)))
    with (Fin c :: removelast (map Fin (c' :: cs))).
  apply diff_from.
Qed.

Lemma gain_column (cs : list Q) :
  where_ (fun d => fgt d (Fin 0)) (Fin 0) (diff (map Fin cs))
  = map Fin (map gain_of (close_deltas cs)).
Proof.
  destruct cs as [|c cs]; [reflexivity|].
  rewrite diff_closes. unfold where_, close_deltas. simpl map at 1.
  cbn [map]. f_equal. rewrite !map_map. apply map_ext. intro d.
  unfold gain_of, fgt. simpl. destruct (Qltb 0 d); reflexivity.
Qed.

Lemma loss_column (cs : list Q) :
  map fneg (where_ (fun d => flt d (Fin 0)) (Fin 0) (diff (map Fin cs)))
  = map Fin (map loss_of (close_deltas cs)).
Proof.
  destruct cs as [|c cs]; [reflexivity|].
  rewrite diff_closes. unfold where_, close_deltas. cbn [map]. f_equal.
  rewrite !map_map. apply map_ext. intro d.
  unfold loss_of. simpl. destruct (Qltb d 0); reflexivity.
Qed.

Lemma close_deltas_from_length (cs : list Q) (p : Q) :
  length (close_deltas_from p cs) = length cs.
Proof.
  revert p. induction cs as [|c cs IH]; intro p; simpl; auto.
Qed.

Lemma close_deltas_length (cs : list Q) :
  length (close_deltas cs) = length cs.
Proof.
  destruct cs; simpl; [reflexivity|]. rewrite close_deltas_from_length.
  reflexivity.
Qed.

(** The RSI of a row whose window is full, from the window's changes. *)
Lemma rsi_at (bars : list Bar) (i : nat) :
  (13 <= i)%nat -> (i < length bars)%nat ->
  rsi (row_at (indicators bars) i)
  = rsi_of_means (Fin (Qmean (map gain_of (rsi_window bars i))))
                 (Fin (Qmean (map loss_of (rsi_window bars i)))).
Proof.
  intros Hlo Hhi.
  change (rsi (row_at (indicators bars) i))
    with (nth i (calculate_rsi 14 (map (fun b => Fin (close b)) bars)) NaN).
  unfold calculate_rsi. rewrite close_column, gain_column, loss_column.
  assert (Hd : (i < length (close_deltas (map close bars)))%nat)
    by (rewrite close_deltas_length, length_map; exact Hhi).
  rewrite (nth_map_in _ _ _ NaN)
    by (rewrite zip_with_length, !rolling_mean_length, !length_map;
        rewrite Nat.min_id; exact Hd).
  rewrite (nth_zip_with _ _ _ _ NaN NaN)
    by (rewrite rolling_mean_length, !length_map; exact Hd).
  unfold rolling_mean.
  rewrite !nth_rolling_full by (rewrite ?length_map; (lia || exact Hd)).
  rewrite !skipn_map_comm, !firstn_map_comm.
  reflexivity.
Qed.

(** Sums and means of non-negative rationals. *)
Lemma Qsum_nonneg (xs : list Q) :
  (forall x, In x xs -> 0 <= x) -> 0 <= Qsum xs.
Proof.
  induction xs as [|x xs IH]; simpl; intro H; [apply Qle_refl|].
  assert (0 <= x) by (apply H; left; reflexivity).
  assert (0 <= Qsum xs) by (apply IH; intros y Hy; apply H; right; exact Hy).
  lra.
Qed.

Lemma Qsum_zero (xs : list Q) :
  (forall x, In x xs -> x == 0) -> Qsum xs == 0.
Proof.
  induction xs as [|x xs IH]; simpl; intro H; [reflexivity|].
  rewrite (H x) by (left; reflexivity).
  rewrite IH by (intros y Hy; apply H; right; exact Hy). ring.
Qed.

Lemma Qsum_pos (xs : list Q) :
  (forall x, In x xs -> 0 <= x) -> (exists x, In x xs /\ 0 < x) ->
  0 < Qsum xs.
Proof.
  induction xs as [|x xs IH]; simpl; intros H [y [Hy Hpos]]; [contradiction|].
  assert (0 <= x) by (apply H; left; reflexivity).
  assert (0 <= Qsum xs)
    by (apply Qsum_nonneg; intros z Hz; apply H; right; exact Hz).
  destruct Hy as [Hy|Hy].
  - subst y. lra.
  - assert (0 < Qsum xs).
    { apply IH; [intros z Hz; apply H; right; exact Hz|].
      exists y. split; assumption. }
    lra.
Qed.

Lemma Qlen_pos (xs : list Q) : xs <> [] -> 0 < Qlen xs.
Proof.
  intro H. destruct xs as [|x xs]; [congruence|].
  unfold Qlen. change 0 with (inject_Z 0). rewrite <- Zlt_Qlt.
  simpl length. lia.
Qed.

Lemma Qmean_nonneg (xs : list Q) :
  xs <> [] -> (forall x, In x xs -> 0 <= x) -> 0 <= Qmean xs.
Proof.
  intros Hne H. unfold Qmean. apply Qle_shift_div_l.
  - apply Qlen_pos. exact Hne.
  - rewrite Qmult_0_l. apply Qsum_nonneg. exact H.
Qed.

Lemma Qmean_zero (xs : list Q) :
  (forall x, In x xs -> x == 0) -> Qmean xs == 0.
Proof.
  intro H. unfold Qmean, Qdiv. rewrite (Qsum_zero xs H). ring.
Qed.

Lemma Qmean_pos (xs : list Q) :
  (forall x, In x xs -> 0 <= x) -> (exists x, In x xs /\ 0 < x) ->
  0 < Qmean xs.
Proof.
  intros H Hex. unfold Qmean. apply Qlt_shift_div_l.
  - apply Qlen_pos. destruct Hex as [x [Hx _]]. intro E. subst xs. exact Hx.
  - rewrite Qmult_0_l. apply Qsum_pos; assumption.
Qed.

Lemma gain_of_nonneg (d : Q) : 0 <= gain_of d.
Proof.
  unfold gain_of. destruct (Qltb 0 d) eqn:E; [|apply Qle_refl].
  apply Qltb_lt in E. apply Qlt_le_weak. exact E.
Qed.

Lemma loss_of_nonneg (d : Q) : 0 <= loss_of d.
Proof.
  unfold loss_of. destruct (Qltb d 0) eqn:E; [|discriminate].
  apply Qltb_lt in E. lra.
Qed.

Lemma gain_of_pos (d : Q) : 0 < d -> 0 < gain_of d.
Proof.
  intro H. unfold gain_of. apply Qltb_lt in H. rewrite H.
  apply Qltb_lt. exact H.
Qed.

Lemma loss_of_pos (d : Q) : d < 0 -> 0 < loss_of d.
Proof.
  intro H. unfold loss_of. pose proof H as H'. apply Qltb_lt in H'.
  rewrite H'. lra.
Qed.

Lemma gain_of_zero (d : Q) : d <= 0 -> gain_of d == 0.
Proof.
  intro H. unfold gain_of. apply Qltb_ge in H. rewrite H. reflexivity.
Qed.

Lemma loss_of_zero (d : Q) : 0 <= d -> loss_of d == 0.
Proof.
  intro H. unfold loss_of. apply Qltb_ge in H. rewrite H. reflexivity.
Qed.

(** Lines 92-93 by cases on the two means. *)
Lemma rsi_of_means_flat (g l : Q) :
  g == 0 -> l == 0 -> rsi_of_means (Fin g) (Fin l) = NaN.
Proof.
  intros Hg Hl. unfold rsi_of_means. simpl.
  apply Qeq_bool_iff in Hl. rewrite Hl. unfold inf_signed.
  assert (E1 : Qltb 0 g = false) by (apply Qltb_ge; lra).
  assert (E2 : Qltb g 0 = false) by (apply Qltb_ge; lra).
  rewrite E1, E2. reflexivity.
Qed.

Lemma rsi_of_means_saturated (g l : Q) :
  0 < g -> l == 0 -> rsi_of_means (Fin g) (Fin l) = Fin (100 + - 0).
Proof.
  intros Hg Hl. unfold rsi_of_means. simpl.
  apply Qeq_bool_iff in Hl. rewrite Hl. unfold inf_signed.
  apply Qltb_lt in Hg. rewrite Hg. reflexivity.
Qed.

Lemma rsi_of_means_ratio (g l : Q) :
  0 <= g -> 0 < l ->
  rsi_of_means (Fin g) (Fin l) = Fin (100 + - (100 / (1 + g / l))) /\
  0 <= 100 + - (100 / (1 + g / l)) <= 100.
Proof.
  intros Hg Hl.
  assert (Hr : 0 <= g / l).
  { apply Qle_shift_div_l; [exact Hl|]. rewrite Qmult_0_l. exact Hg. }
  assert (Ht : 0 < 1 + g / l) by lra.
  assert (H1 : 100 / (1 + g / l) <= 100).
  { apply Qle_shift_div_r; [exact Ht|]. lra. }
  assert (H0 : 0 <= 100 / (1 + g / l)).
  { apply Qle_shift_div_l; [exact Ht|]. lra. }
  split; [|lra].
  unfold rsi_of_means. simpl.
  assert (El : Qeq_bool l 0 = false) by (apply Qeq_bool_false; lra).
  rewrite El. simpl.
  assert (Et : Qeq_bool (1 + g / l) 0 = false) by (apply Qeq_bool_false; lra).
  rewrite Et. reflexivity.
Qed.

Lemma rsi_window_length (bars : list Bar) (i : nat) :
  (13 <= i)%nat -> (i < length bars)%nat ->
  length (rsi_window bars i) = 14%nat.
Proof.
  intros Hlo Hhi. unfold rsi_window. apply window_length; [lia|].
  rewrite close_deltas_length, length_map. exact Hhi.
Qed.

(** C6, as the code has it.  For every bar whose 14-row RSI window is
    full: when the window holds a non-zero close change the RSI is defined
    and lies in [0, 100]; when it holds no negative change and at least
    one positive change the RSI is 100; when every change in it is zero
    (flat closes) the RSI is the undefined value NaN. *)
Theorem rsi_range (bars : list Bar) (i : nat) :
  (13 <= i)%nat -> (i < length bars)%nat ->
  let w := rsi_window bars i in
  let r := rsi (row_at (indicators bars) i) in
  ((forall d, In d w -> d == 0) -> r = NaN) /\
  ((exists d, In d w /\ ~ d == 0) ->
   exists x, r = Fin x /\ 0 <= x <= 100) /\
  ((forall d, In d w -> 0 <= d) -> (exists d, In d w /\ 0 < d) ->
   exists x, r = Fin x /\ x == 100).
Proof.
  intros Hlo Hhi w r.
  assert (Hr : r = rsi_of_means (Fin (Qmean (map gain_of w)))
                                (Fin (Qmean (map loss_of w))))
    by (apply rsi_at; assumption).
  assert (Hlen : length w = 14%nat) by (apply rsi_window_length; assumption).
  assert (Hne : forall f : Q -> Q, map f w <> []).
  { intros f E. apply (f_equal (@length Q)) in E.
    rewrite length_map, Hlen in E. discriminate E. }
  assert (Hg0 : 0 <= Qmean (map gain_of w)).
  { apply Qmean_nonneg; [apply Hne|]. intros x Hx.
    apply in_map_iff in Hx. destruct Hx as [d [<- _]]. apply gain_of_nonneg. }
  assert (Hl0 : 0 <= Qmean (map loss_of w)).
  { apply Qmean_nonneg; [apply Hne|]. intros x Hx.
    apply in_map_iff in Hx. destruct Hx as [d [<- _]]. apply loss_of_nonneg. }
  assert (Hsat : (forall d, In d w -> 0 <= d) -> (exists d, In d w /\ 0 < d) ->
                 r = Fin (100 + - 0)).
  { intros Hall [d [Hd Hpos]]. rewrite Hr. apply rsi_of_means_saturated.
    - apply Qmean_pos.
      + intros x Hx. apply in_map_iff in Hx. destruct Hx as [e [<- _]].
        apply gain_of_nonneg.
      + exists (gain_of d). split; [apply in_map; exact Hd|].
        apply gain_of_pos. exact Hpos.
    - apply Qmean_zero. intros x Hx. apply in_map_iff in Hx.
      destruct Hx as [e [<- He]]. apply loss_of_zero. apply Hall. exact He. }
  split; [|split].
  - intro Hflat. rewrite Hr. apply rsi_of_means_flat.
    + apply Qmean_zero. intros x Hx. apply in_map_iff in Hx.
      destruct Hx as [d [<- Hd]]. apply gain_of_zero.
      rewrite (Hflat d Hd). apply Qle_refl.
    + apply Qmean_zero. intros x Hx. apply in_map_iff in Hx.
      destruct Hx as [d [<- Hd]]. apply loss_of_zero.
      rewrite (Hflat d Hd). apply Qle_refl.
  - intros [d [Hd Hnz]].
    destruct (Qlt_le_dec 0 (Qmean (map loss_of w))) as [Hl|Hl].
    + destruct (rsi_of_means_ratio _ _ Hg0 Hl) as [E B].
      eexists. split; [rewrite Hr; exact E|exact B].
    + assert (Hlz : Qmean (map loss_of w) == 0) by lra.
      assert (Hall : forall e, In e w -> 0 <= e).
      { intros e He. destruct (Qlt_le_dec e 0) as [Hneg|Hpos]; [|exact Hpos].
        exfalso.
        assert (0 < Qmean (map loss_of w)).
        { apply Qmean_pos.
          - intros x Hx. apply in_map_iff in Hx. destruct Hx as [e' [<- _]].
            apply loss_of_nonneg.
          - exists (loss_of e). split; [apply in_map; exact He|].
            apply loss_of_pos. exact Hneg. }
        lra. }
      exists (100 + - 0). split; [|lra].
      apply Hsat; [exact Hall|]. exists d. split; [exact Hd|].
      pose proof (Hall d Hd) as Hd0.
      destruct (Qlt_le_dec 0 d) as [Hp|Hn]; [exact Hp|].
      exfalso. apply Hnz. lra.
  - intros Hall Hex. exists (100 + - 0). split; [|lra].
    apply Hsat; assumption.
Qed.

Lemma rsi_range_witness :
  exists x, rsi (row_at (indicators rising_bars_15) 14) = Fin x /\ x == 100.
Proof.
  apply (rsi_range rising_bars_15 14); [vm_compute; lia|vm_compute; lia| |].
  - intros d Hd. vm_compute in Hd.
    repeat (destruct Hd as [<-|Hd]; [vm_compute; discriminate|]).
    contradiction.
  - exists 1. split; [|reflexivity]. vm_compute. tauto.
Defined.

(** C6 as stated fails on flat closes: the window is full, both rolling
    means are 0, and the RSI of the last of fifteen equal closes is NaN,
    not 100. *)
Lemma rsi_flat_is_nan :
  (13 <= 14)%nat /\ (14 < length flat_bars_15)%nat /\
  (forall d, In d (rsi_window flat_bars_15 14) -> 0 <= d) /\
  rsi (row_at (indicators flat_bars_15) 14) = NaN /\
  ~ (exists x, rsi (row_at (indicators flat_bars_15) 14) = Fin x
               /\ 0 <= x <= 100).
Proof.
  split; [lia|]. split; [vm_compute; lia|]. split.
  - intros d Hd. vm_compute in Hd.
    repeat (destruct Hd as [<-|Hd]; [vm_compute; discriminate|]).
    contradiction.
  - split; [vm_compute; reflexivity|].
    intros [x [E _]]. vm_compute in E. discriminate E.
Qed.

End RSI.

(** ** Undefined indicator values *)

Section Undefined.
Import TradingStrategy ScorerSpec ScorerFacts.

Lemma flt_defined (a b : fl) :
  flt a b = true -> is_nan a = false /\ is_nan b = false.
Proof. destruct a, b; simpl; intro H; try discriminate; auto. Qed.

Lemma fle_defined (a b : fl) :
  fle a b = true -> is_nan a = false /\ is_nan b = false.
Proof. destruct a, b; simpl; intro H; try discriminate; auto. Qed.

Lemma rsi_fires_live (latest : Row) :
  flt (rsi latest) (Fin 30) || fgt (rsi latest) (Fin 70) = true ->
  rsi_live latest = true.
Proof.
  unfold rsi_live, fgt. intro H. apply orb_true_iff in H.
  destruct H as [H|H]; apply flt_defined in H; destruct H as [H1 H2];
    rewrite ?H1, ?H2; reflexivity.
Qed.

Lemma cross_fires_defined (a b c d : fl) :
  (fgt a b && fle c d) || (flt a b && fge c d) = true ->
  negb (is_nan a || is_nan b || is_nan c || is_nan d) = true.
Proof.
  unfold fgt, fge. intro H. apply orb_true_iff in H.
  destruct H as [H|H]; apply andb_true_iff in H; destruct H as [H1 H2];
    apply flt_defined in H1; apply fle_defined in H2;
    destruct H1 as [E1 E2]; destruct H2 as [E3 E4];
    rewrite E1, E2, E3, E4; reflexivity.
Qed.

Lemma bollinger_fires_live (latest : Row) :
  flt (r_close latest) (bb_lower latest)
  || fgt (r_close latest) (bb_upper latest) = true ->
  bollinger_live latest = true.
Proof.
  unfold bollinger_live, fgt. intro H. apply orb_true_iff in H.
  destruct H as [H|H]; apply flt_defined in H; destruct H as [H1 H2];
    rewrite ?H1, ?H2, ?andb_false_r; reflexivity.
Qed.

Lemma trend_fires_live (latest : Row) :
  fgt (r_close latest) (ema_slow latest)
  || flt (r_close latest) (ema_slow latest) = true ->
  trend_live latest = true.
Proof.
  unfold trend_live, fgt. intro H. apply orb_true_iff in H.
  destruct H as [H|H]; apply flt_defined in H; destruct H as [H1 H2];
    rewrite ?H1, ?H2; reflexivity.
Qed.

Lemma volume_fires_live (latest : Row) :
  (is_nan (volume_ma latest) = true -> volume_signal latest = 0%Z) ->
  ((volume_signal latest =? 1) || (volume_signal latest =? -1))%Z = true ->
  volume_live latest = true.
Proof.
  unfold volume_live. intros Hc H.
  destruct (is_nan (volume_ma latest)); [|reflexivity].
  rewrite (Hc eq_refl) in H. discriminate H.
Qed.

(** A rule adds at most its weight, and only when it is live. *)
Lemma apply_rule_bound (w : Q) (cb cs live : bool) (sc : Q * Q) :
  0 <= w -> (cb || cs = true -> live = true) ->
  fst (apply_rule w cb cs sc) <= fst sc + weight_if live w /\
  snd (apply_rule w cb cs sc) <= snd sc + weight_if live w.
Proof.
  intros Hw Hlive. unfold apply_rule, weight_if.
  destruct cb, cs; simpl in *; try rewrite (Hlive eq_refl); simpl;
    try (split; lra).
  destruct live; split; lra.
Qed.

Lemma scores_bounded_by_live_weight (latest prev : Row) :
  (is_nan (volume_ma latest) = true -> volume_signal latest = 0%Z) ->
  buy_score latest prev <= live_weight latest prev /\
  sell_score latest prev <= live_weight latest prev.
Proof.
  intro Hvol. unfold buy_score, sell_score, scores.
  rewrite trend_rule_shape, volume_rule_shape, ema_rule_shape,
    bollinger_rule_shape, macd_rule_shape, rsi_rule_shape.
  unfold live_weight.
  set (sc1 := apply_rule 2 (flt (rsi latest) (Fin 30)) _ (0, 0)).
  set (sc2 := apply_rule 2 (macd_cross_up latest prev) _ sc1).
  set (sc3 := apply_rule 1.5 (flt (r_close latest) (bb_lower latest)) _ sc2).
  set (sc4 := apply_rule 2 (ema_cross_up latest prev) _ sc3).
  set (sc5 := apply_rule 1.5 (volume_signal latest =? 1)%Z _ sc4).
  destruct (apply_rule_bound 2 _ _ (rsi_live latest) (0, 0)
              ltac:(lra) (rsi_fires_live latest)) as [B1 S1].
  destruct (apply_rule_bound 2 _ _ (macd_live latest prev) sc1
              ltac:(lra) (cross_fires_defined _ _ _ _)) as [B2 S2].
  destruct (apply_rule_bound 1.5 _ _ (bollinger_live latest) sc2
              ltac:(lra) (bollinger_fires_live latest)) as [B3 S3].
  destruct (apply_rule_bound 2 _ _ (ema_live latest prev) sc3
              ltac:(lra) (cross_fires_defined _ _ _ _)) as [B4 S4].
  destruct (apply_rule_bound 1.5 _ _ (volume_live latest) sc4
              ltac:(lra) (volume_fires_live latest Hvol)) as [B5 S5].
  destruct (apply_rule_bound 1 _ _ (trend_live latest) sc5
              ltac:(lra) (trend_fires_live latest)) as [B6 S6].
  set (sc6 := apply_rule 1 _ _ sc5) in *.
  change (fst sc1 <= 0 + weight_if (rsi_live latest) 2) in B1.
  change (snd sc1 <= 0 + weight_if (rsi_live latest) 2) in S1.
  change (fst sc2 <= fst sc1 + weight_if (macd_live latest prev) 2) in B2.
  change (snd sc2 <= snd sc1 + weight_if (macd_live latest prev) 2) in S2.
  change (fst sc3 <= fst sc2 + weight_if (bollinger_live latest) 1.5) in B3.
  change (snd sc3 <= snd sc2 + weight_if (bollinger_live latest) 1.5) in S3.
  change (fst sc4 <= fst sc3 + weight_if (ema_live latest prev) 2) in B4.
  change (snd sc4 <= snd sc3 + weight_if (ema_live latest prev) 2) in S4.
  change (fst sc5 <= fst sc4 + weight_if (volume_live latest) 1.5) in B5.
  change (snd sc5 <= snd sc4 + weight_if (volume_live latest) 1.5) in S5.
  clearbody sc6 sc5 sc4 sc3 sc2 sc1.
  split; lra.
Qed.

Lemma removelast_length {A} (l : list A) :
  length (removelast l) = (length l - 1)%nat.
Proof.
  induction l as [|x l IH]; [reflexivity|].
  destruct l as [|y l]; [reflexivity|].
  change (removelast (x :: y :: l)) with (x :: removelast (y :: l)).
  simpl length in *. rewrite IH. lia.
Qed.

Lemma shift1_length (s : Series) : length (shift1 s) = length s.
Proof.
  destruct s as [|x s]; [reflexivity|].
  change (length (shift1 (x :: s)))
    with (S (length (removelast (x :: s)))).
  rewrite removelast_length. simpl. lia.
Qed.

(** Where [volume_ma] is undefined the pipeline leaves [volume_signal]
    at 0. *)
Lemma volume_signal_undefined (bars : list Bar) (i : nat) :
  is_nan (volume_ma (row_at (indicators bars) i)) = true ->
  volume_signal (row_at (indicators bars) i) = 0%Z.
Proof.
  set (close_col := map (fun b => Fin (close b)) bars).
  set (volume_col := map (fun b => Fin (volume b)) bars).
  change (volume_ma (row_at (indicators bars) i))
    with (nth i (rolling_mean 20 volume_col) NaN).
  change (volume_signal (row_at (indicators bars) i))
    with (nth i (snd (calculate_volume_signal 20 close_col volume_col)) 0%Z).
  intro Hnan. unfold calculate_volume_signal. cbn [snd].
  assert (Hc : length close_col = length bars) by apply length_map.
  assert (Hv : length volume_col = length bars) by apply length_map.
  destruct (Nat.lt_ge_cases i (length bars)) as [Hi|Hi].
  - rewrite (nth_zip_with _ _ _ _ false false)
      by (rewrite !zip_with_length, ?rolling_mean_length, ?shift1_length;
          lia).
    rewrite !(nth_zip_with _ _ _ _ false false)
      by (rewrite !zip_with_length, ?rolling_mean_length, ?shift1_length;
          lia).
    rewrite (nth_zip_with _ _ _ _ NaN NaN)
      by (rewrite ?rolling_mean_length; lia).
    destruct (nth i (rolling_mean 20 volume_col) NaN);
      try discriminate Hnan.
    unfold fgt. simpl fmul. rewrite flt_nan_l. reflexivity.
  - apply nth_overflow.
    rewrite !zip_with_length, ?rolling_mean_length, ?shift1_length. lia.
Qed.

Lemma iloc_neg_some (df : DataFrame) (k : nat) (r : Row) :
  iloc_neg df k = Some r -> r = row_at df (length (df_close df) - k).
Proof.
  unfold iloc_neg. destruct (length (df_close df) <? k)%nat; intro H;
    [discriminate|]. injection H as <-. reflexivity.
Qed.

(** A rule whose comparisons read an undefined value leaves both scores
    as they are. *)
Lemma cross_silent (a b c d : fl) :
  is_nan a || is_nan b || is_nan c || is_nan d = true ->
  fgt a b && fle c d = false /\ flt a b && fge c d = false.
Proof.
  intro H. pose proof (cross_fires_defined a b c d) as Hd.
  rewrite H in Hd. simpl in Hd.
  destruct (fgt a b && fle c d); [specialize (Hd eq_refl); discriminate|].
  destruct (flt a b && fge c d); [specialize (Hd eq_refl); discriminate|].
  split; reflexivity.
Qed.

Lemma rsi_rule_silent (latest : Row) (sc : Q * Q) :
  is_nan (rsi latest) = true -> rsi_rule latest sc = sc.
Proof.
  intro H. rewrite rsi_rule_shape. unfold fgt.
  destruct (rsi latest); try discriminate H. reflexivity.
Qed.

Lemma macd_rule_silent (latest prev : Row) (sc : Q * Q) :
  is_nan (macd latest) || is_nan (macd_signal latest)
  || is_nan (macd prev) || is_nan (macd_signal prev) = true ->
  macd_rule latest prev sc = sc.
Proof.
  intro H. rewrite macd_rule_shape. unfold macd_cross_up, macd_cross_down.
  destruct (cross_silent _ _ _ _ H) as [-> ->]. reflexivity.
Qed.

Lemma bollinger_rule_buy_silent (latest : Row) (sc : Q * Q) :
  is_nan (bb_lower latest) = true ->
  fst (bollinger_rule latest sc) = fst sc.
Proof.
  intro H. rewrite bollinger_rule_shape.
  destruct (bb_lower latest); try discriminate H.
  rewrite flt_nan_r. unfold apply_rule.
  destruct (fgt (r_close latest) (bb_upper latest)); reflexivity.
Qed.

Lemma bollinger_rule_sell_silent (latest : Row) (sc : Q * Q) :
  is_nan (bb_upper latest) = true ->
  snd (bollinger_rule latest sc) = snd sc.
Proof.
  intro H. rewrite bollinger_rule_shape. unfold fgt.
  destruct (bb_upper latest); try discriminate H.
  rewrite flt_nan_l. unfold apply_rule.
  destruct (flt (r_close latest) (bb_lower latest)); reflexivity.
Qed.

Lemma ema_rule_silent (latest prev : Row) (sc : Q * Q) :
  is_nan (ema_fast latest) || is_nan (ema_slow latest)
  || is_nan (ema_fast prev) || is_nan (ema_slow prev) = true ->
  ema_rule latest prev sc = sc.
Proof.
  intro H. rewrite ema_rule_shape. unfold ema_cross_up, ema_cross_down.
  destruct (cross_silent _ _ _ _ H) as [-> ->]. reflexivity.
Qed.

Lemma trend_rule_silent (latest : Row) (sc : Q * Q) :
  is_nan (ema_slow latest) = true -> trend_rule latest sc = sc.
Proof.
  intro H. rewrite trend_rule_shape. unfold fgt.
  destruct (ema_slow latest); try discriminate H.
  rewrite flt_nan_l, flt_nan_r. reflexivity.
Qed.

Lemma volume_rule_silent (bars : list Bar) (i : nat) (sc : Q * Q) :
  is_nan (volume_ma (row_at (indicators bars) i)) = true ->
  volume_rule (row_at (indicators bars) i) sc = sc.
Proof.
  intro H. rewrite volume_rule_shape.
  rewrite (volume_signal_undefined bars i H). reflexivity.
Qed.

Lemma decide_proper (b b' s s' : Q) :
  b == b' -> s == s' -> decide b s = decide b' s'.
Proof.
  intros Hb Hs. destruct (decide b s) eqn:E; symmetry.
  - apply decide_buy. apply decide_buy in E. rewrite <- Hb, <- Hs. exact E.
  - apply decide_sell. apply decide_sell in E. rewrite <- Hb, <- Hs.
    exact E.
  - apply decide_hold. apply decide_hold in E. rewrite <- Hb, <- Hs.
    exact E.
Qed.

(** Rows whose rolling windows are not full yet. *)
Lemma rsi_undefined_short (bars : list Bar) (i : nat) :
  (i < 13)%nat -> rsi (row_at (indicators bars) i) = NaN.
Proof.
  intro Hi.
  change (rsi (row_at (indicators bars) i))
    with (nth i (calculate_rsi 14 (map (fun b => Fin (close b)) bars)) NaN).
  unfold calculate_rsi.
  set (c := map (fun b => Fin (close b)) bars).
  set (gain := rolling_mean 14 _). set (loss := rolling_mean 14 _).
  assert (Hg : length gain = length c).
  { unfold gain, where_. rewrite rolling_mean_length, length_map.
    unfold diff. rewrite zip_with_length, shift1_length. apply Nat.min_id. }
  assert (Hl : length loss = length c).
  { unfold loss, where_. rewrite rolling_mean_length, !length_map.
    unfold diff. rewrite zip_with_length, shift1_length. apply Nat.min_id. }
  destruct (Nat.lt_ge_cases i (length c)) as [Hc|Hc].
  - rewrite (nth_map_in _ _ _ NaN)
      by (rewrite zip_with_length, Hg, Hl, Nat.min_id; exact Hc).
    rewrite (nth_zip_with _ _ _ _ NaN NaN) by lia.
    unfold gain, rolling_mean. rewrite nth_rolling_short by lia.
    reflexivity.
  - apply nth_overflow.
    rewrite length_map, zip_with_length, Hg, Hl, Nat.min_id. exact Hc.
Qed.

Lemma bollinger_undefined_short (bars : list Bar) (i : nat) :
  (i < 19)%nat ->
  bb_upper (row_at (indicators bars) i) = NaN /\
  bb_lower (row_at (indicators bars) i) = NaN.
Proof.
  intro Hi. unfold row_at, bb_upper, bb_lower.
  rewrite indicators_bb_upper, indicators_bb_lower.
  destruct (Nat.lt_ge_cases i (length bars)) as [Hc|Hc].
  - rewrite !(nth_zip_with _ _ _ _ NaN NaN)
      by (rewrite ?length_map, ?rolling_mean_length, ?rolling_std_length,
           ?length_map; exact Hc).
    unfold rolling_mean. rewrite !nth_rolling_short by lia.
    split; reflexivity.
  - rewrite !nth_overflow
      by (rewrite zip_with_length, rolling_mean_length, length_map; lia).
    split; reflexivity.
Qed.

Lemma volume_ma_undefined_short (bars : list Bar) (i : nat) :
  (i < 19)%nat -> volume_ma (row_at (indicators bars) i) = NaN.
Proof.
  intro Hi.
  change (volume_ma (row_at (indicators bars) i))
    with (nth i (rolling_mean 20 (map (fun b => Fin (volume b)) bars)) NaN).
  unfold rolling_mean. apply nth_rolling_short. lia.
Qed.

(** With the RSI, both bands and the volume signal out of play, the
    decision is left to the three remaining rules. *)
Lemma three_rules_decide (latest prev : Row) :
  rsi latest = NaN -> bb_upper latest = NaN -> bb_lower latest = NaN ->
  volume_signal latest = 0%Z ->
  score_rows latest prev = three_rule_decision latest prev.
Proof.
  intros Hr Hu Hl Hv.
  unfold score_rows, buy_score, sell_score, scores, three_rule_decision.
  rewrite trend_rule_shape, volume_rule_shape, ema_rule_shape,
    bollinger_rule_shape, macd_rule_shape, rsi_rule_shape.
  assert (R1 : flt (rsi latest) (Fin 30) = false)
    by (rewrite Hr; reflexivity).
  assert (R2 : fgt (rsi latest) (Fin 70) = false)
    by (unfold fgt; rewrite Hr; apply flt_nan_r).
  assert (B1 : flt (r_close latest) (bb_lower latest) = false)
    by (rewrite Hl; apply flt_nan_r).
  assert (B2 : fgt (r_close latest) (bb_upper latest) = false)
    by (unfold fgt; rewrite Hu; apply flt_nan_l).
  rewrite R1, R2, B1, B2, Hv.
  change (0 =? 1)%Z with false. change (0 =? -1)%Z with false.
  pose proof (cross_exclusive (macd latest) (macd_signal latest)
                (macd prev) (macd_signal prev)) as Xm.
  pose proof (cross_exclusive (ema_fast latest) (ema_slow latest)
                (ema_fast prev) (ema_slow prev)) as Xe.
  pose proof (lt_gt_exclusive (r_close latest) (ema_slow latest)) as Xt.
  fold (macd_cross_up latest prev) in Xm.
  fold (macd_cross_down latest prev) in Xm.
  fold (ema_cross_up latest prev) in Xe.
  fold (ema_cross_down latest prev) in Xe.
  destruct (macd_cross_up latest prev), (macd_cross_down latest prev),
    (ema_cross_up latest prev), (ema_cross_down latest prev),
    (fgt (r_close latest) (ema_slow latest)),
    (flt (r_close latest) (ema_slow latest));
    try discriminate Xm; try discriminate Xe; try discriminate Xt;
    reflexivity.
Qed.

(** C3, as the code has it.  An undefined (NaN) indicator value makes
    every comparison that reads it false, so the rule reading it adds
    nothing: a NaN rsi silences the RSI rule, a NaN macd or macd_signal
    the MACD rule, a NaN lower band the buy side and a NaN upper band the
    sell side of the Bollinger rule, a NaN ema_fast or ema_slow the EMA
    crossover, a NaN ema_slow the trend rule, and a NaN volume_ma leaves
    the volume signal at 0.  The scorer decides on what is left: both
    scores are at most the total weight of the rules whose inputs are
    defined, so two rows whose defined rules weigh less than 5 points give
    HOLD.  generate_signal answers HOLD on fewer than two rows; on more it
    decides on the weights of the conditions that hold; on 2 to 13 bars,
    where rsi, both bands and volume_ma are undefined, it answers BUY
    exactly when the MACD crossover, the EMA crossover and the trend rule
    all fire on the buy side, SELL exactly when all three fire on the sell
    side and HOLD otherwise, and both BUY and SELL occur. *)
Theorem undefined_indicator_silences_rule :
  (forall (latest prev : Row) (sc : Q * Q),
     (is_nan (rsi latest) = true -> rsi_rule latest sc = sc) /\
     (is_nan (macd latest) || is_nan (macd_signal latest)
      || is_nan (macd prev) || is_nan (macd_signal prev) = true ->
      macd_rule latest prev sc = sc) /\
     (is_nan (bb_lower latest) = true ->
      fst (bollinger_rule latest sc) = fst sc) /\
     (is_nan (bb_upper latest) = true ->
      snd (bollinger_rule latest sc) = snd sc) /\
     (is_nan (ema_fast latest) || is_nan (ema_slow latest)
      || is_nan (ema_fast prev) || is_nan (ema_slow prev) = true ->
      ema_rule latest prev sc = sc) /\
     (is_nan (ema_slow latest) = true -> trend_rule latest sc = sc)) /\
  (forall (bars : list Bar) (i : nat) (sc : Q * Q),
     is_nan (volume_ma (row_at (indicators bars) i)) = true ->
     volume_signal (row_at (indicators bars) i) = 0%Z /\
     volume_rule (row_at (indicators bars) i) sc = sc) /\
  (forall latest prev : Row,
     (is_nan (volume_ma latest) = true -> volume_signal latest = 0%Z) ->
     buy_score latest prev <= live_weight latest prev /\
     sell_score latest prev <= live_weight latest prev /\
     (live_weight latest prev < 5 -> score_rows latest prev = HOLD)) /\
  (forall bars : list Bar,
     (length bars < 2)%nat -> generate_signal bars = HOLD) /\
  (forall bars : list Bar,
     (2 <= length bars)%nat ->
     let latest := row_at (indicators bars) (length bars - 1) in
     let prev := row_at (indicators bars) (length bars - 2) in
     generate_signal bars
     = decide (table_buy_score latest prev) (table_sell_score latest prev) /\
     buy_score latest prev <= live_weight latest prev /\
     sell_score latest prev <= live_weight latest prev) /\
  (forall bars : list Bar,
     (2 <= length bars)%nat -> (length bars <= 13)%nat ->
     let latest := row_at (indicators bars) (length bars - 1) in
     let prev := row_at (indicators bars) (length bars - 2) in
     rsi latest = NaN /\ bb_upper latest = NaN /\ bb_lower latest = NaN /\
     volume_ma latest = NaN /\
     generate_signal bars = three_rule_decision latest prev) /\
  (exists bars : list Bar,
     (2 <= length bars <= 13)%nat /\ generate_signal bars = BUY) /\
  (exists bars : list Bar,
     (2 <= length bars <= 13)%nat /\ generate_signal bars = SELL).
Proof.
  split; [|split; [|split; [|split; [|split; [|split; [|split]]]]]].
  - intros latest prev sc.
    split; [apply rsi_rule_silent|]. split; [apply macd_rule_silent|].
    split; [apply bollinger_rule_buy_silent|].
    split; [apply bollinger_rule_sell_silent|].
    split; [apply ema_rule_silent|apply trend_rule_silent].
  - intros bars i sc H.
    split; [apply volume_signal_undefined; exact H
           |apply volume_rule_silent; exact H].
  - intros latest prev Hvol.
    destruct (scores_bounded_by_live_weight latest prev Hvol) as [Hb Hs].
    split; [exact Hb|]. split; [exact Hs|].
    intro Hlow. unfold score_rows. apply decide_hold.
    split; intros [H _]; lra.
  - intros bars Hlen. unfold generate_signal, iloc_neg.
    change (length (df_close (indicators bars)))
      with (length (map (fun b => Fin (close b)) bars)).
    rewrite length_map.
    destruct (length bars <? 1)%nat; [reflexivity|].
    apply Nat.ltb_lt in Hlen. rewrite Hlen. reflexivity.
  - intros bars Hlen latest prev.
    destruct (generate_signal_rows bars Hlen) as [E Hbands].
    fold latest in E, Hbands. fold prev in E.
    destruct (scores_as_sums latest prev Hbands) as [Hb Hs].
    split.
    + rewrite E. unfold score_rows. apply decide_proper; assumption.
    + apply scores_bounded_by_live_weight. unfold latest.
      apply volume_signal_undefined.
  - intros bars Hlo Hhi latest prev.
    destruct (generate_signal_rows bars Hlo) as [E _].
    fold latest in E. fold prev in E.
    assert (Hr : rsi latest = NaN)
      by (unfold latest; apply rsi_undefined_short; lia).
    destruct (bollinger_undefined_short bars (length bars - 1)
                ltac:(lia)) as [Hu Hl].
    fold latest in Hu, Hl.
    assert (Hm : volume_ma latest = NaN)
      by (unfold latest; apply volume_ma_undefined_short; lia).
    assert (Hv : volume_signal latest = 0%Z).
    { unfold latest. apply volume_signal_undefined.
      fold latest. rewrite Hm. reflexivity. }
    split; [exact Hr|]. split; [exact Hu|]. split; [exact Hl|].
    split; [exact Hm|].
    rewrite E. apply three_rules_decide; assumption.
  - exists short_bars. split; [simpl; lia|]. vm_compute. reflexivity.
  - exists short_bars_down. split; [simpl; lia|]. vm_compute. reflexivity.
Qed.

Lemma undefined_indicator_silences_rule_witness :
  live_weight undefined_latest sample_prev < 5 /\
  score_rows undefined_latest sample_prev = HOLD.
Proof.
  assert (Hlow : live_weight undefined_latest sample_prev < 5)
    by reflexivity.
  split; [exact Hlow|].
  apply (proj1 (proj2 (proj2 undefined_indicator_silences_rule))
           undefined_latest sample_prev).
  - intro H. discriminate H.
  - exact Hlow.
Defined.

(** C3 as stated fails: on three bars the RSI, both Bollinger bands and
    the volume average are undefined, and the MACD crossover, the EMA
    crossover and the trend rule still add up to 5 points. *)
Lemma undefined_indicator_still_buys :
  iloc_neg (indicators short_bars) 1 = Some (row_at (indicators short_bars) 2)
  /\ rsi (row_at (indicators short_bars) 2) = NaN
  /\ bb_upper (row_at (indicators short_bars) 2) = NaN
  /\ bb_lower (row_at (indicators short_bars) 2) = NaN
  /\ volume_ma (row_at (indicators short_bars) 2) = NaN
  /\ generate_signal short_bars = BUY.
Proof. vm_compute. repeat split; reflexivity. Qed.

End Undefined.

(** ** The position ledger *)

Section Ledger.
Import Backtester.

Lemma execute_long (cfg : Config) (signal : Signal) (price : Q) (date : Z)
  (st : State) (p : Position) :
  position st = Some p ->
  execute cfg signal price date st
  = let pct := position_pnl_pct price p in
    let '(should_exit, exit_reason) := exit_decision cfg signal pct in
    if should_exit then Some (exit_position st p price date pct exit_reason)
    else Some st.
Proof.
  intro Hp. unfold execute. rewrite Hp. destruct signal; reflexivity.
Qed.



(** C2.  The ledger holds at most one position ([position] is empty or
    one record).  A BUY signal on an open position acts as HOLD does: no
    second position is opened, and the position stays as it is unless the
    stop-loss or take-profit closes it.  A SELL or HOLD signal without a
    position changes nothing.  A step that closes a position appends
    exactly one trade, and no other step appends any. *)
Theorem single_position (cfg : Config) (price : Q) (date : Z) (st : State) :
  (forall p, position st = Some p ->
     execute cfg BUY price date st = execute cfg HOLD price date st /\
     exists st', execute cfg BUY price date st = Some st' /\
                 (st' = st \/ position st' = None)) /\
  (position st = None ->
     execute cfg SELL price date st = Some st /\
     execute cfg HOLD price date st = Some st) /\
  (forall signal st', execute cfg signal price date st = Some st' ->
     match position st, position st' with
     | Some p, None =>
         exists t, trades st' = trades st ++ [t] /\
                   t_entry_price t = entry_price p /\
                   t_shares t = shares p /\
                   t_entry_date t = entry_date p
     | Some p, Some p' => st' = st
     | None, _ => trades st' = trades st
     end).
Proof.
  split; [|split].
  - intros p Hp. rewrite !(execute_long _ _ _ _ _ p Hp).
    split; [reflexivity|]. cbv zeta. unfold exit_decision.
    destruct (fle _ _); [eexists; split; [reflexivity|right; reflexivity]|].
    destruct (fge _ _); [eexists; split; [reflexivity|right; reflexivity]|].
    eexists; split; [reflexivity|left; reflexivity].
  - intro Hp. unfold execute. rewrite Hp. split; reflexivity.
  - intros signal st' H.
    destruct (position st) as [p|] eqn:Hp.
    + rewrite (execute_long _ _ _ _ _ p Hp) in H. cbv zeta in H.
      destruct (exit_decision cfg signal (position_pnl_pct price p))
        as [[|] why]; injection H as <-.
      * simpl. eexists. split; [reflexivity|]. repeat split.
      * rewrite Hp. reflexivity.
    + unfold execute in H. rewrite Hp in H.
      destruct signal; try (injection H as <-; reflexivity).
      destruct (Qeq_bool price 0); [discriminate|].
      destruct (0 <? _)%Z; injection H as <-; reflexivity.
Qed.

End Ledger.

(** ** The backtest loop *)

Section Loop.
Import Backtester.

Lemma execute_equity_curve (cfg : Config) (signal : Signal) (price : Q)
  (date : Z) (st st' : State) :
  execute cfg signal price date st = Some st' ->
  equity_curve st' = equity_curve st.
Proof.
  unfold execute. intro H.
  destruct (position st) as [p|].
  - assert (E : (let pct := position_pnl_pct price p in
                 let '(should_exit, exit_reason) :=
                   exit_decision cfg signal pct in
                 if should_exit
                 then Some (exit_position st p price date pct exit_reason)
                 else Some st) = Some st')
      by (destruct signal; exact H).
    cbv zeta in E.
    destruct (exit_decision cfg signal (position_pnl_pct price p))
      as [[|] why]; injection E as <-; reflexivity.
  - destruct signal; try (injection H as <-; reflexivity).
    destruct (Qeq_bool price 0); [discriminate|].
    destruct (0 <? _)%Z; injection H as <-; reflexivity.
Qed.

Lemma step_inv (cfg : Config) (bars : list Bar) (st st' : State) (i : nat) :
  step cfg bars st i = Some st' ->
  exists bar st0,
    nth_error bars i = Some bar /\
    execute cfg (signal_at bars i) (close bar) (timestamp bar) st = Some st0 /\
    st' = track_equity (close bar) (timestamp bar) st0.
Proof.
  unfold step. destruct (nth_error bars i) as [bar|]; [|discriminate].
  destruct (execute _ _ _ _ st) as [st0|] eqn:He; [|discriminate].
  intro H. injection H as <-. exists bar, st0.
  split; [reflexivity|]. split; [exact He|reflexivity].
Qed.

Lemma skipn_cons_nth_error {A} (l : list A) (i : nat) (x : A) :
  nth_error l i = Some x -> skipn i l = x :: skipn (S i) l.
Proof.
  revert i. induction l as [|y l IH]; intros [|i] H; simpl in *;
    try discriminate.
  - injection H as ->. reflexivity.
  - apply IH. exact H.
Qed.

(** Every iteration appends the snapshot of its own bar. *)
Lemma loop_equity_dates (cfg : Config) (bars : list Bar) (k : nat) :
  forall (a : nat) (st st' : State),
    loop cfg bars st (seq a k) = Some st' ->
    map date (equity_curve st')
    = map date (equity_curve st) ++ map timestamp (firstn k (skipn a bars)).
Proof.
  induction k as [|k IH]; intros a st st' H.
  - injection H as <-. simpl. rewrite app_nil_r. reflexivity.
  - simpl in H. destruct (step cfg bars st a) as [st1|] eqn:Hs;
      [|discriminate].
    apply step_inv in Hs. destruct Hs as [bar [st0 [Hn [He ->]]]].
    apply IH in H. rewrite H.
    rewrite (skipn_cons_nth_error _ _ _ Hn). simpl.
    rewrite (execute_equity_curve _ _ _ _ _ _ He).
    rewrite map_app, <- app_assoc. reflexivity.
Qed.

(** The loop runs to its end when no close is zero. *)
Lemma loop_total (cfg : Config) (bars : list Bar) (k : nat) :
  (forall b, In b bars -> ~ close b == 0) ->
  forall (a : nat) (st : State),
    (a + k <= length bars)%nat ->
    exists st', loop cfg bars st (seq a k) = Some st'.
Proof.
  intro Hnz. induction k as [|k IH]; intros a st Hlen.
  - exists st. reflexivity.
  - simpl. unfold step.
    destruct (nth_error bars a) as [bar|] eqn:Hn.
    + assert (Hin : In bar bars) by (eapply nth_error_In; exact Hn).
      assert (Hz : Qeq_bool (close bar) 0 = false)
        by (apply Qeq_bool_false; apply Hnz; exact Hin).
      assert (He : exists st0, execute cfg (signal_at bars a) (close bar)
                                 (timestamp bar) st = Some st0).
      { unfold execute. rewrite Hz.
        destruct (signal_at bars a), (position st) as [p|];
          try (eexists; reflexivity);
          try (cbv zeta;
               destruct (exit_decision _ _ _) as [[|] why];
               eexists; reflexivity).
        destruct (0 <? _)%Z; eexists; reflexivity. }
      destruct He as [st0 He]. rewrite He. apply IH. lia.
    + apply nth_error_None in Hn. lia.
Qed.

Lemma close_open_position_equity (bars : list Bar) (st : State) :
  equity_curve (close_open_position bars st) = equity_curve st.
Proof.
  unfold close_open_position.
  destruct (position st); [|reflexivity].
  destruct (nth_error bars (length bars - 1)); reflexivity.
Qed.

(** C5.  When the bar series is absent or shorter than 100 bars the
    backtest returns no result and has recorded no trade and no equity
    snapshot.  With at least 100 bars it runs the loop over the bar
    indices 100, 101, ... up to the last: it records one snapshot per bar
    from index 100 on, and it runs to the end whenever no close is
    zero. *)
Theorem warmup_guard (cfg : Config) (initial : Q) :
  (run_backtest cfg None initial = Returned None /\
   recorded_trades (simulate cfg None initial) = [] /\
   recorded_equity (simulate cfg None initial) = []) /\
  (forall bars, (length bars < 100)%nat ->
     run_backtest cfg (Some bars) initial = Returned None /\
     recorded_trades (simulate cfg (Some bars) initial) = [] /\
     recorded_equity (simulate cfg (Some bars) initial) = []) /\
  (forall bars, (100 <= length bars)%nat ->
     simulate cfg (Some bars) initial
     = match loop cfg bars (new_state initial)
                  (seq 100 (length bars - 100)) with
       | None => Crashed
       | Some st => Finished (close_open_position bars st)
       end /\
     (forall st, simulate cfg (Some bars) initial = Finished st ->
        map date (equity_curve st) = map timestamp (skipn 100 bars)) /\
     ((forall b, In b bars -> ~ close b == 0) ->
      exists st, simulate cfg (Some bars) initial = Finished st)).
Proof.
  split; [repeat split|]. split.
  - intros bars Hlen. apply Nat.ltb_lt in Hlen.
    unfold run_backtest, simulate. rewrite Hlen. repeat split.
  - intros bars Hlen.
    assert (E : (length bars <? 100)%nat = false)
      by (apply Nat.ltb_ge; exact Hlen).
    unfold simulate, bar_indices. rewrite E. split; [reflexivity|]. split.
    + intros st H.
      destruct (loop cfg bars (new_state initial)
                     (seq 100 (length bars - 100))) as [st1|] eqn:Hl;
        [|discriminate].
      injection H as <-. rewrite close_open_position_equity.
      rewrite (loop_equity_dates _ _ _ _ _ _ Hl).
      cbn [new_state equity_curve map app].
      rewrite firstn_all2 by (rewrite length_skipn; lia). reflexivity.
    + intro Hnz.
      destruct (loop_total cfg bars (length bars - 100) Hnz 100%nat
                  (new_state initial)) as [st1 Hl]; [lia|].
      rewrite Hl. eexists. reflexivity.
Qed.







Lemma calculate_statistics_some (ts : list Trade) (curve : list Snapshot)
  (initial final : Q) (r : Report) :
  calculate_statistics ts curve initial final = Some r ->
  ts <> [] /\ initial_capital r = initial /\ final_capital r = final /\
  rep_trades r = ts /\ rep_equity_curve r = curve /\
  total_trades r = length ts /\
  winning_trades r = length (pnls_where (fun x => Qltb 0 x) ts) /\
  win_rate r = inject_Z (Z.of_nat (winning_trades r))
               / inject_Z (Z.of_nat (total_trades r)) * 100.
Proof.
  destruct ts as [|t ts]; [discriminate|]. intro H.
  unfold calculate_statistics in H. injection H as <-.
  split; [discriminate|]. repeat split.
Qed.



End Loop.

Section Doubles.
Import PrimFloat.


End Doubles.

(** ** Flat closes *)

Section Flat.
Import TradingStrategy Backtester.

Lemma flt_irrefl (a : fl) : flt a a = false.
Proof.
  destruct a; try reflexivity. simpl. apply Qltb_ge. apply Qle_refl.
Qed.

Lemma in_firstn {A} (n : nat) (l : list A) (x : A) :
  In x (firstn n l) -> In x l.
Proof.
  intro H. rewrite <- (firstn_skipn n l). apply in_or_app. left. exact H.
Qed.

Lemma in_skipn {A} (n : nat) (l : list A) (x : A) :
  In x (skipn n l) -> In x l.
Proof.
  intro H. rewrite <- (firstn_skipn n l). apply in_or_app. right. exact H.
Qed.

Lemma map_constant {A B} (f : A -> B) (l : list A) (y : B) :
  (forall x, In x l -> f x = y) -> map f l = repeat y (length l).
Proof.
  induction l as [|x l IH]; intro H; [reflexivity|].
  simpl. rewrite (H x) by (left; reflexivity).
  rewrite IH by (intros z Hz; apply H; right; exact Hz). reflexivity.
Qed.

Lemma zip_with_repeat {A B C} (f : A -> B -> C) (a : A) (b : B) (n : nat) :
  zip_with f (repeat a n) (repeat b n) = repeat (f a b) n.
Proof.
  induction n as [|n IH]; [reflexivity|]. simpl. rewrite IH. reflexivity.
Qed.

Lemma ewm_from_flat (alpha x : Q) (n : nat) :
  ewm_from alpha (Fin x) (repeat (Fin x) n) = repeat (Fin x) n.
Proof.
  induction n as [|n IH]; [reflexivity|].
  simpl. rewrite (proj2 (Qeq_bool_iff x x) (Qeq_refl x)).
  rewrite IH. reflexivity.
Qed.

Lemma ewm_mean_flat (span : Z) (x : Q) (n : nat) :
  ewm_mean span (repeat (Fin x) n) = repeat (Fin x) n.
Proof.
  destruct n as [|n]; [reflexivity|].
  simpl. rewrite ewm_from_flat. reflexivity.
Qed.

Lemma close_deltas_from_flat (c : Q) (cs : list Q) :
  (forall x, In x cs -> x = c) ->
  forall d, In d (close_deltas_from c cs) -> d == 0.
Proof.
  induction cs as [|x cs IH]; intros H d Hd; [contradiction|].
  assert (x = c) by (apply H; left; reflexivity). subst x.
  simpl in Hd. destruct Hd as [<-|Hd]; [ring|].
  apply IH; [|exact Hd]. intros y Hy. apply H. right. exact Hy.
Qed.

Lemma close_deltas_flat (c : Q) (cs : list Q) :
  (forall x, In x cs -> x = c) ->
  forall d, In d (close_deltas cs) -> d == 0.
Proof.
  destruct cs as [|x cs]; intros H d Hd; [contradiction|].
  assert (x = c) by (apply H; left; reflexivity). subst x.
  simpl in Hd. destruct Hd as [<-|Hd]; [reflexivity|].
  apply (close_deltas_from_flat c cs); [|exact Hd].
  intros y Hy. apply H. right. exact Hy.
Qed.

(** The last row of the indicator table of flat bars. *)
Lemma flat_latest_row (ws : list Bar) (c : Q) :
  (14 <= length ws)%nat -> (forall b, In b ws -> close b = c) ->
  let latest := row_at (indicators ws) (length ws - 1) in
  rsi latest = NaN /\
  macd latest = macd_signal latest /\
  ema_fast latest = ema_slow latest /\
  r_close latest = ema_slow latest.
Proof.
  intros Hlen Hflat latest.
  assert (Hcol : map (fun b => Fin (close b)) ws
                 = repeat (Fin c) (length ws)).
  { apply map_constant. intros b Hb. rewrite (Hflat b Hb). reflexivity. }
  split; [|split; [|split]].
  - unfold latest. rewrite rsi_at by lia.
    apply rsi_of_means_flat; apply Qmean_zero; intros x Hx;
      apply in_map_iff in Hx; destruct Hx as [d [<- Hd]];
      unfold rsi_window in Hd; apply in_firstn, in_skipn in Hd;
      apply (close_deltas_flat c) in Hd;
      try (intros y Hy; apply in_map_iff in Hy;
           destruct Hy as [b [<- Hb]]; apply Hflat; exact Hb).
    + apply gain_of_zero. rewrite Hd. apply Qle_refl.
    + apply loss_of_zero. rewrite Hd. apply Qle_refl.
  - change (macd latest)
      with (nth (length ws - 1)
              (fst (fst (calculate_macd 12 26 9
                           (map (fun b => Fin (close b)) ws)))) NaN).
    change (macd_signal latest)
      with (nth (length ws - 1)
              (snd (fst (calculate_macd 12 26 9
                           (map (fun b => Fin (close b)) ws)))) NaN).
    unfold calculate_macd. cbn [fst snd]. rewrite Hcol.
    rewrite !ewm_mean_flat, zip_with_repeat. simpl fsub.
    rewrite ewm_mean_flat. reflexivity.
  - change (ema_fast latest)
      with (nth (length ws - 1)
              (ewm_mean 9 (map (fun b => Fin (close b)) ws)) NaN).
    change (ema_slow latest)
      with (nth (length ws - 1)
              (ewm_mean 21 (map (fun b => Fin (close b)) ws)) NaN).
    rewrite Hcol, !ewm_mean_flat. reflexivity.
  - change (r_close latest)
      with (nth (length ws - 1) (map (fun b => Fin (close b)) ws) NaN).
    change (ema_slow latest)
      with (nth (length ws - 1)
              (ewm_mean 21 (map (fun b => Fin (close b)) ws)) NaN).
    rewrite Hcol, !ewm_mean_flat. reflexivity.
Qed.

(** With the RSI undefined and no gap between MACD and its signal line,
    between the two EMAs, or between close and the slow EMA, the two
    remaining rules weigh 3 points at most. *)
Lemma quiet_rows_hold (latest prev : Row) :
  rsi latest = NaN ->
  macd latest = macd_signal latest ->
  ema_fast latest = ema_slow latest ->
  r_close latest = ema_slow latest ->
  score_rows latest prev = HOLD.
Proof.
  intros Hr Hm He Hc.
  unfold score_rows, buy_score, sell_score, scores.
  unfold trend_rule, volume_rule, ema_rule, bollinger_rule, macd_rule,
    rsi_rule, fgt.
  rewrite Hr, Hm, He. cbn [flt andb].
  rewrite !flt_irrefl. cbn [andb].
  destruct (flt (r_close latest) (bb_lower latest));
    destruct (flt (bb_upper latest) (r_close latest));
    destruct (volume_signal latest =? 1)%Z;
    destruct (volume_signal latest =? -1)%Z;
    rewrite ?Hc, ?flt_irrefl; reflexivity.
Qed.

Lemma flat_window_hold (ws : list Bar) (c : Q) :
  (14 <= length ws)%nat -> (forall b, In b ws -> close b = c) ->
  generate_signal ws = HOLD.
Proof.
  intros Hlen Hflat.
  destruct (generate_signal_rows ws ltac:(lia)) as [E _]. rewrite E.
  destruct (flat_latest_row ws c Hlen Hflat) as [Hr [Hm [He Hc]]].
  apply quiet_rows_hold; assumption.
Qed.

Lemma tail_window_flat (bars : list Bar) (c : Q) (i : nat) :
  (13 <= i)%nat -> (i < length bars)%nat ->
  (forall b, In b bars -> close b = c) ->
  signal_at bars i = HOLD.
Proof.
  intros Hlo Hhi Hflat. unfold signal_at. apply (flat_window_hold _ c).
  - unfold tail. rewrite length_skipn, !length_firstn. lia.
  - intros b Hb. unfold tail in Hb. apply in_skipn, in_firstn in Hb.
    apply Hflat. exact Hb.
Qed.

(** On flat bars every iteration holds: nothing is bought, and the
    snapshot of each bar is the cash. *)
Lemma loop_flat (cfg : Config) (bars : list Bar) (c : Q) (k : nat) :
  (forall b, In b bars -> close b = c) ->
  forall (a : nat) (st : State),
    (13 <= a)%nat -> (a + k <= length bars)%nat -> position st = None ->
    exists st',
      loop cfg bars st (seq a k) = Some st' /\
      capital st' = capital st /\ position st' = None /\
      trades st' = trades st /\
      map equity (equity_curve st')
      = map equity (equity_curve st) ++ repeat (capital st) k.
Proof.
  intro Hflat. induction k as [|k IH]; intros a st Ha Hlen Hp.
  - exists st. simpl. rewrite app_nil_r. repeat split; assumption.
  - simpl. unfold step.
    destruct (nth_error bars a) as [bar|] eqn:Hn;
      [|apply nth_error_None in Hn; lia].
    rewrite (tail_window_flat bars c a Ha ltac:(lia) Hflat).
    unfold execute. rewrite Hp.
    set (st1 := track_equity (close bar) (timestamp bar) st).
    destruct (IH (S a) st1 ltac:(lia) ltac:(lia)) as [st' [Hl [Hc [Hq [Ht He]]]]].
    { unfold st1, track_equity. simpl. exact Hp. }
    exists st'. split; [exact Hl|].
    split; [rewrite Hc; reflexivity|]. split; [exact Hq|].
    split; [rewrite Ht; reflexivity|].
    rewrite He. unfold st1, track_equity. cbn [equity_curve capital].
    rewrite Hp, map_app, <- app_assoc. reflexivity.
Qed.

Lemma cummax_from_flat (x : Q) (n : nat) :
  cummax_from x (repeat x n) = repeat x n.
Proof.
  induction n as [|n IH]; [reflexivity|].
  simpl. rewrite (proj2 (Qltb_ge x x) (Qle_refl x)), IH. reflexivity.
Qed.

Lemma cummax_flat (x : Q) (n : nat) : cummax (repeat x n) = repeat x n.
Proof.
  destruct n as [|n]; [reflexivity|]. simpl. rewrite cummax_from_flat.
  reflexivity.
Qed.

Lemma series_min_flat (q : Q) (n : nat) :
  series_min (repeat (Fin q) (S n)) = Fin q.
Proof.
  unfold series_min. simpl.
  induction n as [|n IH]; [reflexivity|].
  simpl. rewrite (proj2 (Qltb_ge q q) (Qle_refl q)). exact IH.
Qed.

(** The drawdown of an equity curve that never moves is 0. *)
Lemma drawdown_flat (x : Q) (n : nat) :
  ~ x == 0 ->
  feq (series_min (drawdown (repeat x (S n)))) (Fin 0).
Proof.
  intro Hx. unfold drawdown. rewrite cummax_flat, zip_with_repeat.
  simpl fdiv. apply Qeq_bool_false in Hx. rewrite Hx. simpl fmul.
  rewrite series_min_flat. simpl. unfold Qdiv. ring.
Qed.

(** C8, as the code has it.  With an empty trade list the statistics
    calculator produces no report: it returns [None]; a report, when there
    is one, has a non-empty trade list and
    [win_rate = winning_trades / total_trades * 100].  On 100 or more bars
    of flat close the run completes with zero trades, the capital
    unchanged and every equity snapshot equal to the initial capital (so
    the drawdown over the curve is 0), and returns no report. *)
Theorem no_trades_no_report (cfg : Config) (initial : Q) :
  (forall curve final, calculate_statistics [] curve initial final = None) /\
  (forall ts curve final r,
     calculate_statistics ts curve initial final = Some r ->
     ts <> [] /\
     win_rate r = inject_Z (Z.of_nat (winning_trades r))
                  / inject_Z (Z.of_nat (total_trades r)) * 100) /\
  (forall bars c,
     (100 <= length bars)%nat -> (forall b, In b bars -> close b = c) ->
     exists st,
       simulate cfg (Some bars) initial = Finished st /\
       trades st = [] /\ capital st = initial /\
       map equity (equity_curve st) = repeat initial (length bars - 100) /\
       ((100 < length bars)%nat -> ~ initial == 0 ->
        feq (series_min (drawdown (map equity (equity_curve st)))) (Fin 0)) /\
       run_backtest cfg (Some bars) initial = Returned None).
Proof.
  split; [reflexivity|]. split.
  - intros ts curve final r H. apply calculate_statistics_some in H.
    destruct H as [Hne [_ [_ [_ [_ [_ [_ Hw]]]]]]]. split; assumption.
  - intros bars c Hlen Hflat.
    destruct (loop_flat cfg bars c (length bars - 100) Hflat 100%nat
                (new_state initial) ltac:(lia) ltac:(lia) eq_refl)
      as [st [Hl [Hc [Hp [Ht He]]]]].
    assert (Hs : simulate cfg (Some bars) initial = Finished st).
    { unfold simulate, bar_indices.
      rewrite (proj2 (Nat.ltb_ge _ _) Hlen), Hl.
      unfold close_open_position. rewrite Hp. reflexivity. }
    exists st. split; [exact Hs|]. split; [exact Ht|]. split; [exact Hc|].
    split; [exact He|]. split.
    + intros Hgt Hnz. rewrite He. cbn [new_state capital].
      destruct (length bars - 100)%nat as [|n] eqn:E; [lia|].
      simpl app. apply drawdown_flat. exact Hnz.
    + unfold run_backtest. rewrite Hs, Ht. reflexivity.
Qed.

(** C8 as stated fails: the calculator returns nothing for an empty trade
    list, and the run over 102 flat bars returns no report at all, so
    none with [win_rate = 0]. *)
Lemma no_trades_gives_no_report :
  calculate_statistics [] [] 10000 10000 = None /\
  recorded_trades (simulate default_config (Some flat_bars_102) 10000) = [] /\
  run_backtest default_config (Some flat_bars_102) 10000 = Returned None /\
  ~ (exists r, run_backtest default_config (Some flat_bars_102) 10000
               = Returned (Some r) /\ win_rate r == 0).
Proof.
  assert (E : run_backtest default_config (Some flat_bars_102) 10000
              = Returned None) by (vm_compute; reflexivity).
  split; [reflexivity|]. split; [vm_compute; reflexivity|].
  split; [exact E|]. intros [r [H _]]. rewrite E in H. discriminate H.
Qed.

End Flat.

(** ** Order placement *)

Section Orders.
Import AlpacaTrader.

Variable submit_order : OrderRequest -> option Z.

(** C9, as the code has it.  A limit order whose [limit_price] is missing
    or zero is rejected before the order sink: nothing is submitted and
    the call returns no order; so is an order type that is neither market
    nor limit.  A market order needs only symbol, quantity and side and
    is submitted.  The side is not validated: every side other than buy
    (in any letter case) is sent to the sink as a sell order. *)
Theorem place_order_validation (sent : list OrderRequest) (symbol : string)
  (qty : Z) (side order_type : string) (limit_price : option Q) :
  (order_type = "limit"%string -> truthy limit_price = false ->
   place_order submit_order sent symbol qty side order_type limit_price
   = (None, sent)) /\
  (order_type <> "market"%string -> order_type <> "limit"%string ->
   place_order submit_order sent symbol qty side order_type limit_price
   = (None, sent)) /\
  (order_type = "market"%string ->
   place_order submit_order sent symbol qty side order_type limit_price
   = (submit_order (MarketOrderRequest symbol qty (side_of side)),
      sent ++ [MarketOrderRequest symbol qty (side_of side)])) /\
  (forall p, order_type = "limit"%string -> limit_price = Some p ->
   ~ p == 0 ->
   place_order submit_order sent symbol qty side order_type limit_price
   = (submit_order (LimitOrderRequest symbol qty (side_of side) p),
      sent ++ [LimitOrderRequest symbol qty (side_of side) p])) /\
  (lower side <> "buy"%string -> side_of side = OS_SELL).
Proof.
  unfold place_order, build_order.
  split; [|split; [|split; [|split]]].
  - intros -> Ht. simpl. destruct limit_price as [p|]; [|reflexivity].
    rewrite Ht. reflexivity.
  - intros Hm Hl.
    apply String.eqb_neq in Hm. apply String.eqb_neq in Hl.
    rewrite Hm, Hl. destruct limit_price; reflexivity.
  - intros ->. reflexivity.
  - intros p -> -> Hp. simpl. apply Qeq_bool_false in Hp. rewrite Hp.
    reflexivity.
  - intro Hs. unfold side_of. apply String.eqb_neq in Hs. rewrite Hs.
    reflexivity.
Qed.

End Orders.

(** C9 as stated fails for the side: the unrecognised side "hold" is not
    rejected; a market order with that side reaches the sink as a sell
    order. *)
Lemma unrecognised_side_is_sold :
  AlpacaTrader.place_order (fun _ => Some 1%Z) [] "AAPL" 10 "hold" "market"
                           None
  = (Some 1%Z, [MarketOrderRequest "AAPL" 10 OS_SELL]).
Proof. reflexivity. Qed.

(** * Further properties *)

(** ** No lookahead in the indicator table *)

Section Causality.
Import TradingStrategy.

Lemma zip_with_firstn {A B C} (f : A -> B -> C) (k : nat) (xs : list A)
  (ys : list B) :
  zip_with f (firstn k xs) (firstn k ys) = firstn k (zip_with f xs ys).
Proof.
  revert xs ys. induction k as [|k IH]; intros [|x xs] [|y ys]; simpl;
    try reflexivity.
  rewrite IH. reflexivity.
Qed.

Lemma removelast_firstn_S {A} (k : nat) (l : list A) :
  removelast (firstn (S k) l) = firstn k (removelast l).
Proof.
  revert k. induction l as [|a l IH]; intro k.
  - destruct k; reflexivity.
  - destruct l as [|b l].
    + destruct k; reflexivity.
    + destruct k as [|k]; [reflexivity|].
      change (firstn (S (S k)) (a :: b :: l))
        with (a :: firstn (S k) (b :: l)).
      change (removelast (a :: b :: l)) with (a :: removelast (b :: l)).
      change (firstn (S k) (a :: removelast (b :: l)))
        with (a :: firstn k (removelast (b :: l))).
      rewrite <- IH. reflexivity.
Qed.

Lemma shift1_firstn (k : nat) (s : Series) :
  shift1 (firstn k s) = firstn k (shift1 s).
Proof.
  destruct k as [|k]; [destruct s; reflexivity|].
  destruct s as [|x s]; [reflexivity|].
  change (shift1 (firstn (S k) (x :: s)))
    with (NaN :: removelast (firstn (S k) (x :: s))).
  rewrite removelast_firstn_S. reflexivity.
Qed.

Lemma diff_firstn (k : nat) (s : Series) :
  diff (firstn k s) = firstn k (diff s).
Proof.
  unfold diff. rewrite shift1_firstn. apply zip_with_firstn.
Qed.

Lemma window_firstn {A} (w i k : nat) (s : list A) :
  (i < k)%nat -> window w i (firstn k s) = window w i s.
Proof.
  intro Hi. unfold window.
  destruct (i + 1 <? w)%nat eqn:E; [reflexivity|].
  apply Nat.ltb_ge in E. f_equal.
  rewrite skipn_firstn_comm, firstn_firstn.
  f_equal. lia.
Qed.

Lemma firstn_seq_min (k start len : nat) :
  firstn k (seq start len) = seq start (Nat.min k len).
Proof.
  revert start len. induction k as [|k IH]; intros start [|len]; simpl;
    try reflexivity.
  rewrite IH. reflexivity.
Qed.

Lemma rolling_firstn (w : nat) (agg : list Q -> fl) (k : nat) (s : Series) :
  rolling w agg (firstn k s) = firstn k (rolling w agg s).
Proof.
  unfold rolling. rewrite firstn_map_comm, firstn_seq_min, length_firstn.
  apply map_ext_in. intros i Hi. apply in_seq in Hi.
  rewrite window_firstn by lia. reflexivity.
Qed.

Lemma ewm_from_firstn (alpha : Q) (k : nat) :
  forall (weighted : fl) (s : Series),
    ewm_from alpha weighted (firstn k s)
    = firstn k (ewm_from alpha weighted s).
Proof.
  induction k as [|k IH]; intros weighted [|x s]; simpl; try reflexivity.
  rewrite IH. reflexivity.
Qed.

Lemma ewm_mean_firstn (span : Z) (k : nat) (s : Series) :
  ewm_mean span (firstn k s) = firstn k (ewm_mean span s).
Proof.
  destruct k as [|k]; destruct s as [|x s]; try reflexivity.
  simpl. rewrite ewm_from_firstn. reflexivity.
Qed.

Lemma indicators_columns (bars : list Bar) :
  indicators bars
  = let close_col := map (fun b => Fin (close b)) bars in
    let volume_col := map (fun b => Fin (volume b)) bars in
    {| df_close := close_col;
       df_volume := volume_col;
       df_rsi := calculate_rsi 14 close_col;
       df_macd := fst (fst (calculate_macd 12 26 9 close_col));
       df_macd_signal := snd (fst (calculate_macd 12 26 9 close_col));
       df_macd_hist := snd (calculate_macd 12 26 9 close_col);
       df_bb_upper :=
         snd (fst (calculate_bollinger_bands 20 2 close_col));
       df_bb_middle :=
         fst (fst (calculate_bollinger_bands 20 2 close_col));
       df_bb_lower := snd (calculate_bollinger_bands 20 2 close_col);
       df_ema_fast := fst (calculate_ema 9 21 close_col);
       df_ema_slow := snd (calculate_ema 9 21 close_col);
       df_volume_ma :=
         fst (calculate_volume_signal 20 close_col volume_col);
       df_volume_signal :=
         snd (calculate_volume_signal 20 close_col volume_col) |}.
Proof. reflexivity. Qed.

Ltac push_firstn :=
  repeat (rewrite <- firstn_map_comm
          || rewrite diff_firstn
          || rewrite shift1_firstn
          || rewrite rolling_firstn
          || rewrite ewm_mean_firstn
          || rewrite zip_with_firstn).

(** Each indicator pass commutes with cutting the table after row [k]. *)
Lemma calculate_rsi_firstn (period k : nat) (c : Series) :
  calculate_rsi period (firstn k c) = firstn k (calculate_rsi period c).
Proof.
  unfold calculate_rsi, where_, rolling_mean. push_firstn. reflexivity.
Qed.

Lemma calculate_macd_firstn (fast slow signal : Z) (k : nat) (c : Series) :
  calculate_macd fast slow signal (firstn k c)
  = let '(m, s, h) := calculate_macd fast slow signal c in
    (firstn k m, firstn k s, firstn k h).
Proof.
  unfold calculate_macd. push_firstn. reflexivity.
Qed.

Lemma calculate_bollinger_bands_firstn (period : nat) (std : Q) (k : nat)
  (c : Series) :
  calculate_bollinger_bands period std (firstn k c)
  = let '(m, u, l) := calculate_bollinger_bands period std c in
    (firstn k m, firstn k u, firstn k l).
Proof.
  unfold calculate_bollinger_bands, rolling_mean, rolling_std.
  push_firstn. reflexivity.
Qed.

Lemma calculate_ema_firstn (fast slow : Z) (k : nat) (c : Series) :
  calculate_ema fast slow (firstn k c)
  = (firstn k (fst (calculate_ema fast slow c)),
     firstn k (snd (calculate_ema fast slow c))).
Proof.
  unfold calculate_ema. push_firstn. reflexivity.
Qed.

Lemma calculate_volume_signal_firstn (period k : nat) (c v : Series) :
  calculate_volume_signal period (firstn k c) (firstn k v)
  = (firstn k (fst (calculate_volume_signal period c v)),
     firstn k (snd (calculate_volume_signal period c v))).
Proof.
  unfold calculate_volume_signal, rolling_mean. cbn [fst snd].
  push_firstn. reflexivity.
Qed.

Lemma nth_firstn_lt {A} (k i : nat) (l : list A) (d : A) :
  (i < k)%nat -> nth i (firstn k l) d = nth i l d.
Proof.
  intro H. rewrite nth_firstn. apply Nat.ltb_lt in H. rewrite H.
  reflexivity.
Qed.

(** X1.  No lookahead: row [i] of the indicator table is the same whether the
    table is computed from all bars or only from the bars up to any later
    row, so no indicator value depends on a bar after its own. *)
Theorem indicators_no_lookahead (bars : list Bar) (k i : nat) :
  (i < k)%nat ->
  row_at (indicators (firstn k bars)) i = row_at (indicators bars) i.
Proof.
  intro Hi. rewrite !indicators_columns. cbv zeta. unfold row_at.
  cbn [df_close df_volume df_rsi df_macd df_macd_signal df_macd_hist
       df_bb_upper df_bb_middle df_bb_lower df_ema_fast df_ema_slow
       df_volume_ma df_volume_signal].
  rewrite <- !firstn_map_comm.
  rewrite calculate_rsi_firstn, calculate_macd_firstn,
    calculate_bollinger_bands_firstn, calculate_ema_firstn,
    calculate_volume_signal_firstn.
  destruct (calculate_macd 12 26 9 (map (fun b => Fin (close b)) bars))
    as [[m s] h].
  destruct (calculate_bollinger_bands 20 2
              (map (fun b => Fin (close b)) bars)) as [[bm bu] bl].
  cbn [fst snd].
  rewrite !(nth_firstn_lt k i) by exact Hi. reflexivity.
Qed.

Lemma indicators_no_lookahead_witness :
  row_at (indicators (firstn 20 sample_run_bars)) 19
  = row_at (indicators sample_run_bars) 19.
Proof.
  apply (indicators_no_lookahead sample_run_bars 20 19). lia.
Defined.

End Causality.

(** ** What the signal reads *)

Section Reads.
Import TradingStrategy.

Lemma volume_column (bars : list Bar) :
  map (fun b => Fin (volume b)) bars = map Fin (map volume bars).
Proof. rewrite map_map. reflexivity. Qed.

(** X2.  The signal is a function of the close and volume columns only: two
    bar series with the same closes and the same volumes get the same
    signal, whatever their timestamps, opens, highs and lows are. *)
Theorem generate_signal_reads_close_and_volume (bars1 bars2 : list Bar) :
  map close bars1 = map close bars2 ->
  map volume bars1 = map volume bars2 ->
  generate_signal bars1 = generate_signal bars2.
Proof.
  intros Hc Hv. unfold generate_signal.
  assert (E : indicators bars1 = indicators bars2).
  { rewrite !indicators_columns, !close_column, !volume_column, Hc, Hv.
    reflexivity. }
  rewrite E. reflexivity.
Qed.

Lemma generate_signal_reads_close_and_volume_witness :
  generate_signal short_bars
  = generate_signal
      [ {| timestamp := 7; open := 1; high := 30; low := 1; close := 10;
           volume := 1000 |};
        {| timestamp := 8; open := 2; high := 31; low := 2; close := 9;
           volume := 1000 |};
        {| timestamp := 9; open := 3; high := 32; low := 3; close := 20;
           volume := 1000 |} ].
Proof.
  apply generate_signal_reads_close_and_volume; reflexivity.
Defined.

End Reads.

(** ** Ranges of the indicators *)

Section Ranges.
Import TradingStrategy.

(** X3.  For every bar whose 20-bar window is full the three Bollinger bands
    are defined and ordered: lower <= middle <= upper. *)
Theorem bollinger_bands_ordered (bars : list Bar) (i : nat) :
  (19 <= i)%nat -> (i < length bars)%nat ->
  exists lo mid up,
    bb_lower (row_at (indicators bars) i) = Fin lo /\
    bb_middle (row_at (indicators bars) i) = Fin mid /\
    bb_upper (row_at (indicators bars) i) = Fin up /\
    lo <= mid /\ mid <= up.
Proof.
  intros Hlo Hhi.
  destruct (bollinger_at bars i Hlo Hhi) as [Em [Eu [El _]]].
  pose proof (Qsqrt_nonneg (Qvar 1 (bollinger_window bars i))) as Hs.
  eexists _, _, _. split; [exact El|]. split; [exact Em|].
  split; [exact Eu|]. split; lra.
Qed.

Lemma bollinger_bands_ordered_witness :
  exists lo mid up,
    bb_lower (row_at (indicators band_bars) 19) = Fin lo /\
    bb_middle (row_at (indicators band_bars) 19) = Fin mid /\
    bb_upper (row_at (indicators band_bars) 19) = Fin up /\
    lo <= mid /\ mid <= up.
Proof.
  apply (bollinger_bands_ordered band_bars 19); vm_compute; lia.
Defined.

(** An exponential mean stays between the bounds of its inputs. *)
Lemma ewm_from_range (alpha lo hi : Q) (qs : list Q) :
  0 <= alpha -> alpha <= 1 ->
  (forall x, In x qs -> lo <= x <= hi) ->
  forall w, lo <= w <= hi ->
  forall y, In y (ewm_from alpha (Fin w) (map Fin qs)) ->
            exists q, y = Fin q /\ lo <= q <= hi.
Proof.
  intros Ha0 Ha1. induction qs as [|x qs IH]; intros Hin w Hw y Hy.
  - contradiction.
  - assert (Hx : lo <= x <= hi) by (apply Hin; left; reflexivity).
    assert (Hrest : forall z, In z qs -> lo <= z <= hi)
      by (intros z Hz; apply Hin; right; exact Hz).
    cbn [map ewm_from] in Hy. cbn [feqb fmul fadd] in Hy.
    destruct (Qeq_bool w x).
    + destruct Hy as [<-|Hy]; [exists w; split; [reflexivity|exact Hw]|].
      apply (IH Hrest w Hw y Hy).
    + assert (Hc : lo <= (1 - alpha) * w + alpha * x <= hi).
      { assert (0 <= (1 - alpha) * (w - lo))
          by (apply Qmult_le_0_compat; lra).
        assert (0 <= alpha * (x - lo)) by (apply Qmult_le_0_compat; lra).
        assert (0 <= (1 - alpha) * (hi - w))
          by (apply Qmult_le_0_compat; lra).
        assert (0 <= alpha * (hi - x)) by (apply Qmult_le_0_compat; lra).
        split; lra. }
      destruct Hy as [<-|Hy]; [eexists; split; [reflexivity|exact Hc]|].
      apply (IH Hrest _ Hc y Hy).
Qed.

Lemma ewm_mean_range (span : Z) (lo hi : Q) (qs : list Q) :
  (1 <= span)%Z ->
  (forall x, In x qs -> lo <= x <= hi) ->
  forall y, In y (ewm_mean span (map Fin qs)) ->
            exists q, y = Fin q /\ lo <= q <= hi.
Proof.
  intros Hs Hin y Hy. destruct qs as [|x qs]; [contradiction|].
  assert (Hx : lo <= x <= hi) by (apply Hin; left; reflexivity).
  cbn [map ewm_mean] in Hy. destruct Hy as [<-|Hy].
  - exists x. split; [reflexivity|exact Hx].
  - assert (Hd : 0 < inject_Z span + 1).
    { assert (inject_Z 1 <= inject_Z span) by (rewrite <- Zle_Qle; exact Hs).
      change (inject_Z 1) with 1 in H. lra. }
    refine (ewm_from_range (ewm_alpha span) lo hi qs _ _ _ x Hx y Hy).
    + unfold ewm_alpha. apply Qle_shift_div_l; [exact Hd|]. lra.
    + unfold ewm_alpha. apply Qle_shift_div_r; [exact Hd|].
      assert (inject_Z 1 <= inject_Z span) by (rewrite <- Zle_Qle; exact Hs).
      change (inject_Z 1) with 1 in H. lra.
    + intros z Hz. apply Hin. right. exact Hz.
Qed.

Lemma ewm_from_length (alpha : Q) (s : Series) :
  forall w, length (ewm_from alpha w s) = length s.
Proof.
  induction s as [|y s IH]; intro w; [reflexivity|].
  simpl. f_equal. apply IH.
Qed.

Lemma ewm_mean_length (span : Z) (s : Series) :
  length (ewm_mean span s) = length s.
Proof.
  destruct s as [|x s]; [reflexivity|]. simpl. f_equal.
  apply ewm_from_length.
Qed.

(** X4.  Both EMAs of the closes stay within the range of the closes, and so
    the MACD line is no larger in size than the width of that range. *)
Theorem ema_within_close_range (bars : list Bar) (lo hi : Q) (i : nat) :
  (forall b, In b bars -> lo <= close b <= hi) ->
  (i < length bars)%nat ->
  exists f s m,
    ema_fast (row_at (indicators bars) i) = Fin f /\
    ema_slow (row_at (indicators bars) i) = Fin s /\
    macd (row_at (indicators bars) i) = Fin m /\
    lo <= f <= hi /\ lo <= s <= hi /\ - (hi - lo) <= m <= hi - lo.
Proof.
  intros Hin Hi.
  assert (Hq : forall x, In x (map close bars) -> lo <= x <= hi).
  { intros x Hx. apply in_map_iff in Hx. destruct Hx as [b [<- Hb]].
    apply Hin. exact Hb. }
  assert (Hcol : forall span, (1 <= span)%Z ->
            exists q, nth i (ewm_mean span
                               (map (fun b => Fin (close b)) bars)) NaN
                      = Fin q /\ lo <= q <= hi).
  { intros span Hs. rewrite close_column.
    apply (ewm_mean_range span lo hi (map close bars) Hs Hq).
    apply nth_In. rewrite ewm_mean_length, !length_map. exact Hi. }
  destruct (Hcol 9%Z ltac:(lia)) as [f [Ef Hf]].
  destruct (Hcol 21%Z ltac:(lia)) as [s [Es Hs]].
  destruct (Hcol 12%Z ltac:(lia)) as [f12 [E12 H12]].
  destruct (Hcol 26%Z ltac:(lia)) as [s26 [E26 H26]].
  exists f, s, (f12 + - s26).
  split; [exact Ef|]. split; [exact Es|].
  split; [|split; [exact Hf|split; [exact Hs|lra]]].
  change (macd (row_at (indicators bars) i))
    with (nth i (zip_with fsub
                   (ewm_mean 12 (map (fun b => Fin (close b)) bars))
                   (ewm_mean 26 (map (fun b => Fin (close b)) bars))) NaN).
  rewrite (nth_zip_with _ _ _ _ NaN NaN)
    by (rewrite ewm_mean_length, length_map; exact Hi).
  rewrite E12, E26. reflexivity.
Qed.

Lemma ema_within_close_range_witness :
  exists f s m,
    ema_fast (row_at (indicators short_bars) 2) = Fin f /\
    ema_slow (row_at (indicators short_bars) 2) = Fin s /\
    macd (row_at (indicators short_bars) 2) = Fin m /\
    9 <= f <= 20 /\ 9 <= s <= 20 /\ - (20 - 9) <= m <= 20 - 9.
Proof.
  apply (ema_within_close_range short_bars 9 20 2).
  - intros b Hb.
    repeat (destruct Hb as [<-|Hb]; [vm_compute; split; discriminate|]).
    contradiction.
  - vm_compute. lia.
Defined.

End Ranges.

(** ** Votes behind a signal *)

Section Votes.
Import TradingStrategy ScorerSpec ScorerFacts.

(** X8.  No single rule and no pair of rules can trigger a trade signal: a BUY
    needs at least three of the six buy conditions to hold, and a SELL at
    least three of the six sell conditions. *)
Theorem signal_needs_three_votes (latest prev : Row) :
  (score_rows latest prev = BUY -> (3 <= buy_votes latest prev)%nat) /\
  (score_rows latest prev = SELL -> (3 <= sell_votes latest prev)%nat).
Proof.
  unfold score_rows, buy_score, sell_score, scores, buy_votes, sell_votes.
  rewrite trend_rule_shape, volume_rule_shape, ema_rule_shape,
    bollinger_rule_shape, macd_rule_shape, rsi_rule_shape.
  destruct (flt (rsi latest) (Fin 30)), (fgt (rsi latest) (Fin 70)),
    (macd_cross_up latest prev), (macd_cross_down latest prev),
    (flt (r_close latest) (bb_lower latest)),
    (fgt (r_close latest) (bb_upper latest)),
    (ema_cross_up latest prev), (ema_cross_down latest prev),
    (volume_signal latest =? 1)%Z, (volume_signal latest =? -1)%Z,
    (fgt (r_close latest) (ema_slow latest)),
    (flt (r_close latest) (ema_slow latest));
    (split; intro H; vm_compute in H; try discriminate H;
     vm_compute; repeat constructor).
Qed.

End Votes.

(** ** The volume signal *)

Section Volume.
Import TradingStrategy.

Lemma nth_removelast {A} (l : list A) (j : nat) (d : A) :
  (j + 1 < length l)%nat -> nth j (removelast l) d = nth j l d.
Proof.
  revert j. induction l as [|a l IH]; intros j Hj; [simpl in Hj; lia|].
  destruct l as [|b l]; [simpl in Hj; lia|].
  change (removelast (a :: b :: l)) with (a :: removelast (b :: l)).
  destruct j as [|j]; [reflexivity|].
  simpl nth. apply IH. simpl in *. lia.
Qed.

Lemma nth_shift1 (s : Series) (i : nat) :
  (1 <= i)%nat -> (i < length s)%nat ->
  nth i (shift1 s) NaN = nth (i - 1) s NaN.
Proof.
  intros H1 Hi. destruct s as [|x s]; [simpl in Hi; lia|].
  destruct i as [|i]; [lia|].
  change (nth (S i) (shift1 (x :: s)) NaN)
    with (nth i (removelast (x :: s)) NaN).
  rewrite nth_removelast by (simpl in *; lia).
  replace (S i - 1)%nat with i by lia. reflexivity.
Qed.

(** X7.  The volume signal of a bar whose 20-bar window is full is -1 when the
    volume exceeds 1.5 times its rolling average and the close fell, +1
    when it exceeds it and the close rose, and 0 otherwise; before the
    window is full it is 0. *)
Theorem volume_signal_rule (bars : list Bar) (i : nat) :
  (i < length bars)%nat ->
  let v := nth i (map volume bars) 0 in
  let c := nth i (map close bars) 0 in
  let p := nth (i - 1) (map close bars) 0 in
  let high_volume := Qltb (Qmean (volume_window bars i) * 1.5) v in
  volume_signal (row_at (indicators bars) i)
  = if (i <? 19)%nat then 0%Z
    else if high_volume && Qltb c p then (-1)%Z
    else if high_volume && Qltb p c then 1%Z
    else 0%Z.
Proof.
  intros Hi v c p high_volume.
  destruct (i <? 19)%nat eqn:E.
  - apply Nat.ltb_lt in E. apply volume_signal_undefined.
    change (volume_ma (row_at (indicators bars) i))
      with (nth i (rolling_mean 20 (map (fun b => Fin (volume b)) bars))
              NaN).
    unfold rolling_mean. rewrite nth_rolling_short by lia. reflexivity.
  - apply Nat.ltb_ge in E.
    set (close_col := map (fun b => Fin (close b)) bars).
    set (volume_col := map (fun b => Fin (volume b)) bars).
    change (volume_signal (row_at (indicators bars) i))
      with (nth i (snd (calculate_volume_signal 20 close_col volume_col))
              0%Z).
    unfold calculate_volume_signal. cbn [snd].
    assert (Hc : length close_col = length bars) by apply length_map.
    assert (Hv : length volume_col = length bars) by apply length_map.
    rewrite (nth_zip_with _ _ _ _ false false)
      by (rewrite !zip_with_length, ?rolling_mean_length, ?shift1_length;
          lia).
    rewrite !(nth_zip_with _ _ _ _ false false)
      by (rewrite !zip_with_length, ?rolling_mean_length, ?shift1_length;
          lia).
    rewrite (nth_zip_with _ _ _ _ NaN NaN)
      by (rewrite ?rolling_mean_length; lia).
    rewrite !(nth_zip_with _ _ _ _ NaN NaN)
      by (rewrite ?shift1_length; lia).
    rewrite nth_shift1 by lia.
    assert (Hma : nth i (rolling_mean 20 volume_col) NaN
                  = Fin (Qmean (volume_window bars i))).
    { unfold volume_col. rewrite volume_column. unfold rolling_mean.
      rewrite nth_rolling_full by (rewrite ?length_map; lia). reflexivity. }
    assert (Hvi : nth i volume_col NaN = Fin v).
    { unfold volume_col. rewrite volume_column.
      apply nth_map_in. rewrite length_map. lia. }
    assert (Hci : nth i close_col NaN = Fin c).
    { unfold close_col. rewrite close_column.
      apply nth_map_in. rewrite length_map. lia. }
    assert (Hpi : nth (i - 1) close_col NaN = Fin p).
    { unfold close_col. rewrite close_column.
      apply nth_map_in. rewrite length_map. lia. }
    rewrite !Hma, !Hvi, !Hci, !Hpi. unfold fgt. cbn [fmul flt].
    fold high_volume.
    destruct high_volume, (Qltb c p), (Qltb p c); reflexivity.
Qed.

Lemma volume_signal_rule_witness :
  volume_signal (row_at (indicators sample_run_bars) 100) = 0%Z.
Proof.
  rewrite (volume_signal_rule sample_run_bars 100) by (vm_compute; lia).
  reflexivity.
Defined.

End Volume.

(** ** Solvency of the backtest *)

Section Solvency.
Import Backtester.

Variable cfg : Config.
Hypothesis size_nonneg : 0 <= POSITION_SIZE_PCT cfg.
Hypothesis size_le_1 : POSITION_SIZE_PCT cfg <= 1.

Lemma inject_Z_pos (n : Z) : (1 <= n)%Z -> 1 <= inject_Z n.
Proof.
  intro H. change 1 with (inject_Z 1). rewrite <- Zle_Qle. exact H.
Qed.

(** A position costs no more than the sized share of the cash. *)
Lemma position_cost_bounded (cash price : Q) :
  0 <= cash -> 0 < price ->
  let n := Qtrunc (cash * POSITION_SIZE_PCT cfg / price) in
  (0 < n)%Z ->
  inject_Z n * price <= cash * POSITION_SIZE_PCT cfg /\
  inject_Z n * price <= cash.
Proof.
  intros Hc Hp n Hn.
  set (q := cash * POSITION_SIZE_PCT cfg / price) in *.
  assert (Hcp : 0 <= cash * POSITION_SIZE_PCT cfg)
    by (apply Qmult_le_0_compat; assumption).
  assert (Hq : 0 <= q).
  { unfold q. apply Qle_shift_div_l; [exact Hp|]. lra. }
  assert (En : n = Qfloor q).
  { unfold n, Qtrunc. rewrite (proj2 (Qltb_ge q 0) Hq). reflexivity. }
  assert (Hfl : inject_Z n <= q) by (rewrite En; apply Qfloor_le).
  assert (Hqp : q * price == cash * POSITION_SIZE_PCT cfg).
  { unfold q. field. lra. }
  assert (H1 : inject_Z n * price <= q * price)
    by (apply Qmult_le_compat_r; [exact Hfl|lra]).
  assert (H2 : 0 <= cash * (1 - POSITION_SIZE_PCT cfg))
    by (apply Qmult_le_0_compat; lra).
  split; lra.
Qed.

Lemma execute_solvent (signal : Signal) (price : Q) (date : Z)
  (st st' : State) :
  0 < price ->
  execute cfg signal price date st = Some st' ->
  solvent st -> solvent st'.
Proof.
  intros Hprice H [Hc [Hp [He Ht]]].
  destruct (position st) as [p|] eqn:Epos.
  - rewrite (execute_long _ _ _ _ _ p Epos) in H. cbv zeta in H.
    destruct (exit_decision cfg signal (position_pnl_pct price p))
      as [[|] why]; injection H as <-.
    + assert (Hs : 1 <= inject_Z (shares p))
        by (apply inject_Z_pos; apply Hp; reflexivity).
      assert (0 <= inject_Z (shares p) * price)
        by (apply Qmult_le_0_compat; lra).
      unfold solvent. cbn [exit_position capital position trades
                           equity_curve].
      split; [lra|]. split; [discriminate|]. split; [exact He|].
      apply Forall_app. split; [exact Ht|].
      constructor; [apply Hp; reflexivity|constructor].
    + unfold solvent. rewrite Epos. repeat split; assumption.
  - unfold execute in H. rewrite Epos in H.
    assert (Hsame : solvent st)
      by (unfold solvent; rewrite Epos; repeat split; assumption).
    destruct signal; try (injection H as <-; exact Hsame).
    destruct (Qeq_bool price 0); [discriminate|].
    destruct (0 <? _)%Z eqn:En; injection H as <-; [|exact Hsame].
    apply Z.ltb_lt in En.
    destruct (position_cost_bounded (capital st) price Hc Hprice En)
      as [_ Hcost].
    unfold solvent. cbn [open_position capital position trades
                         equity_curve shares].
    split; [lra|]. split; [|split; assumption].
    intros p Ep. injection Ep as <-. cbn [shares]. lia.
Qed.

Lemma track_equity_solvent (price : Q) (date : Z) (st : State) :
  0 < price -> solvent st -> solvent (track_equity price date st).
Proof.
  intros Hprice [Hc [Hp [He Ht]]]. unfold solvent, track_equity.
  cbn [capital position trades equity_curve].
  split; [exact Hc|]. split; [exact Hp|]. split; [|exact Ht].
  apply Forall_app. split; [exact He|]. constructor; [|constructor].
  cbn [equity]. destruct (position st) as [p|]; [|exact Hc].
  assert (1 <= inject_Z (shares p))
    by (apply inject_Z_pos; apply Hp; reflexivity).
  assert (0 <= inject_Z (shares p) * price)
    by (apply Qmult_le_0_compat; lra).
  lra.
Qed.

Lemma loop_solvent (bars : list Bar) (indices : list nat) :
  (forall b, In b bars -> 0 < close b) ->
  forall st st' : State,
    loop cfg bars st indices = Some st' -> solvent st -> solvent st'.
Proof.
  intro Hpos. induction indices as [|i rest IH]; intros st st' H Hs.
  - injection H as <-. exact Hs.
  - simpl in H. destruct (step cfg bars st i) as [st1|] eqn:E;
      [|discriminate].
    apply step_inv in E. destruct E as [bar [st0 [Hn [He ->]]]].
    assert (Hb : 0 < close bar)
      by (apply Hpos; eapply nth_error_In; exact Hn).
    apply (IH _ _ H). apply track_equity_solvent; [exact Hb|].
    apply (execute_solvent _ _ _ _ _ Hb He Hs).
Qed.

Lemma close_open_position_solvent (bars : list Bar) (st : State) :
  (forall b, In b bars -> 0 < close b) ->
  solvent st -> solvent (close_open_position bars st).
Proof.
  intros Hpos [Hc [Hp [He Ht]]]. unfold close_open_position.
  destruct (position st) as [p|] eqn:Epos;
    [|unfold solvent; rewrite Epos; repeat split; assumption].
  destruct (nth_error bars (length bars - 1)) as [final_bar|] eqn:Hn;
    [|unfold solvent; rewrite Epos; repeat split; assumption].
  assert (Hb : 0 < close final_bar)
    by (apply Hpos; eapply nth_error_In; exact Hn).
  assert (1 <= inject_Z (shares p))
    by (apply inject_Z_pos; apply Hp; reflexivity).
  assert (0 <= inject_Z (shares p) * close final_bar)
    by (apply Qmult_le_0_compat; lra).
  unfold solvent. cbn [capital position trades equity_curve].
  split; [lra|]. split; [exact Hp|]. split; [exact He|].
  apply Forall_app. split; [exact Ht|].
  constructor; [apply Hp; reflexivity|constructor].
Qed.

(** X10.  With a position size fraction between 0 and 1, positive closes and a
    non-negative initial capital, a backtest never overdraws: the final
    cash and every equity snapshot are non-negative, and every recorded
    trade covers at least one share. *)
Theorem backtest_stays_solvent (bars : list Bar) (initial : Q) (st : State) :
  0 <= initial ->
  all_closes_positive bars = true ->
  simulate cfg (Some bars) initial = Finished st ->
  0 <= capital st /\
  (forall s, In s (equity_curve st) -> 0 <= equity s) /\
  (forall t, In t (trades st) -> (1 <= t_shares t)%Z).
Proof.
  intros Hi Hall H.
  assert (Hpos : forall b, In b bars -> 0 < close b).
  { intros b Hb. unfold all_closes_positive in Hall.
    rewrite forallb_forall in Hall. apply Qltb_lt. apply Hall. exact Hb. }
  unfold simulate in H.
  destruct (length bars <? 100)%nat; [discriminate|].
  destruct (loop cfg bars (new_state initial) (bar_indices bars))
    as [st1|] eqn:Hl; [|discriminate].
  injection H as <-.
  assert (Hs : solvent (close_open_position bars st1)).
  { apply close_open_position_solvent; [exact Hpos|].
    apply (loop_solvent bars _ Hpos _ _ Hl).
    unfold solvent, new_state. cbn. split; [exact Hi|].
    split; [discriminate|]. split; constructor. }
  destruct Hs as [Hc [_ [He Ht]]].
  split; [exact Hc|]. split; apply Forall_forall; assumption.
Qed.

End Solvency.

Lemma backtest_stays_solvent_witness :
  exists st,
    Backtester.simulate default_config (Some sample_run_bars) 10000
    = Backtester.Finished st /\ 0 <= capital st.
Proof.
  assert (E : exists st,
             Backtester.simulate default_config (Some sample_run_bars) 10000
             = Backtester.Finished st)
    by (vm_compute; eexists; reflexivity).
  destruct E as [st E]. exists st. split; [exact E|].
  apply (backtest_stays_solvent default_config ltac:(discriminate)
           ltac:(discriminate) sample_run_bars 10000 st
           ltac:(discriminate) eq_refl E).
Defined.

(** ** Trades of a run *)

Section Trades.
Import Backtester.

(** A property kept by every iteration is kept by the loop. *)
Lemma loop_preserves (P : State -> Prop) (cfg : Config) (bars : list Bar) :
  (forall st i bar st0,
     nth_error bars i = Some bar -> P st ->
     execute cfg (signal_at bars i) (close bar) (timestamp bar) st
     = Some st0 ->
     P (track_equity (close bar) (timestamp bar) st0)) ->
  forall indices st st',
    loop cfg bars st indices = Some st' -> P st -> P st'.
Proof.
  intro Hstep. induction indices as [|i rest IH]; intros st st' H HP.
  - injection H as <-. exact HP.
  - simpl in H. destruct (step cfg bars st i) as [st1|] eqn:E;
      [|discriminate].
    apply step_inv in E. destruct E as [bar [st0 [Hn [He ->]]]].
    apply (IH _ _ H). apply (Hstep st i bar st0 Hn HP He).
Qed.

Lemma exit_decision_justified (cfg : Config) (signal : Signal) (pct : fl)
  (why : string) (p : Position) (date : Z) (price : Q) :
  exit_decision cfg signal pct = (true, why) ->
  exit_justified cfg (close_trade p date price pct why).
Proof.
  unfold exit_decision, exit_justified. cbn [close_trade reason pnl_pct].
  intro H.
  assert (Hrest :
    (if fle pct (Fin (- STOP_LOSS_PCT cfg)) then (true, "Stop-loss"%string)
     else if fge pct (Fin (TAKE_PROFIT_PCT cfg))
          then (true, "Take-profit"%string)
          else (false, ""%string)) = (true, why) ->
    why = "SELL signal"%string \/
    (why = "Stop-loss"%string /\
     fle pct (Fin (- STOP_LOSS_PCT cfg)) = true) \/
    (why = "Take-profit"%string /\
     fge pct (Fin (TAKE_PROFIT_PCT cfg)) = true /\
     fle pct (Fin (- STOP_LOSS_PCT cfg)) = false) \/
    why = "End of backtest"%string).
  { destruct (fle pct (Fin (- STOP_LOSS_PCT cfg))) eqn:E1.
    - intro E. injection E as <-. right. left. split; reflexivity.
    - destruct (fge pct (Fin (TAKE_PROFIT_PCT cfg))) eqn:E2.
      + intro E. injection E as <-. right. right. left. repeat split.
      + discriminate. }
  destruct signal; try (apply Hrest; exact H).
  injection H as <-. left. reflexivity.
Qed.

(** X11.  Every trade of a finished run carries one of the four reasons, and
    the reason is the condition that closed it: a trade recorded as
    Stop-loss had lost at least the stop-loss percentage, and one recorded
    as Take-profit had gained at least the take-profit percentage without
    breaching the stop-loss. *)
Theorem trades_have_justified_reasons (cfg : Config) (bars : list Bar)
  (initial : Q) (st : State) :
  simulate cfg (Some bars) initial = Finished st ->
  forall t, In t (trades st) -> exit_justified cfg t.
Proof.
  intro H. apply Forall_forall. unfold simulate in H.
  destruct (length bars <? 100)%nat; [discriminate|].
  destruct (loop cfg bars (new_state initial) (bar_indices bars))
    as [st1|] eqn:Hl; [|discriminate].
  injection H as <-.
  assert (H1 : Forall (exit_justified cfg) (trades st1)).
  { refine (loop_preserves (fun s => Forall (exit_justified cfg) (trades s))
              cfg bars _ _ _ _ Hl _); [|constructor].
    intros st i bar st0 _ HP He. cbn [track_equity trades].
    destruct (position st) as [p|] eqn:Epos.
    - rewrite (execute_long _ _ _ _ _ p Epos) in He. cbv zeta in He.
      destruct (exit_decision cfg (signal_at bars i)
                  (position_pnl_pct (close bar) p)) as [[|] why] eqn:Ed;
        injection He as <-; [|exact HP].
      cbn [exit_position trades]. apply Forall_app. split; [exact HP|].
      constructor; [|constructor].
      apply (exit_decision_justified _ _ _ _ _ _ _ Ed).
    - unfold execute in He. rewrite Epos in He.
      destruct (signal_at bars i); try (injection He as <-; exact HP).
      destruct (Qeq_bool (close bar) 0); [discriminate|].
      destruct (0 <? _)%Z; injection He as <-; exact HP. }
  unfold close_open_position.
  destruct (position st1) as [p|]; [|exact H1].
  destruct (nth_error bars (length bars - 1)); [|exact H1].
  cbn [trades]. apply Forall_app. split; [exact H1|].
  constructor; [|constructor].
  unfold exit_justified. cbn [close_trade reason].
  right. right. right. reflexivity.
Qed.

Lemma trades_have_justified_reasons_witness :
  exists st,
    simulate default_config (Some sample_run_bars) 10000 = Finished st /\
    trades st <> [] /\
    forall t, In t (trades st) -> exit_justified default_config t.
Proof.
  assert (E : exists st,
             simulate default_config (Some sample_run_bars) 10000
             = Finished st /\ trades st <> [])
    by (vm_compute; eexists; split; [reflexivity|discriminate]).
  destruct E as [st [E Hne]]. exists st. split; [exact E|].
  split; [exact Hne|].
  apply (trades_have_justified_reasons default_config sample_run_bars
           10000 st E).
Defined.

(** X12.  A position opened at a bar is never closed by the loop at that same
    bar, so closing [n] trades takes at least [2n - 1] simulated bars:
    twice the number of trades is at most the number of simulated bars
    plus one. *)
Theorem trades_take_two_bars (cfg : Config) (bars : list Bar) (initial : Q)
  (st : State) :
  simulate cfg (Some bars) initial = Finished st ->
  (2 * length (trades st) <= (length bars - 100) + 1)%nat.
Proof.
  intro H. unfold simulate in H.
  destruct (length bars <? 100)%nat eqn:Elen; [discriminate|].
  apply Nat.ltb_ge in Elen.
  destruct (loop cfg bars (new_state initial) (bar_indices bars))
    as [st1|] eqn:Hl; [|discriminate].
  injection H as <-.
  assert (Hcount : (2 * length (trades st1) + open_count st1
                    <= length (equity_curve st1))%nat).
  { refine (loop_preserves
              (fun s => (2 * length (trades s) + open_count s
                         <= length (equity_curve s))%nat)
              cfg bars _ _ _ _ Hl _); [|cbv; lia].
    intros st i bar st0 _ HP He. unfold open_count in *.
    cbn [track_equity trades position equity_curve]. rewrite length_app.
    cbn [length].
    rewrite (execute_equity_curve _ _ _ _ _ _ He).
    destruct (position st) as [p|] eqn:Epos.
    - rewrite (execute_long _ _ _ _ _ p Epos) in He. cbv zeta in He.
      destruct (exit_decision cfg (signal_at bars i)
                  (position_pnl_pct (close bar) p)) as [[|] why];
        injection He as <-.
      + cbn [exit_position trades position]. rewrite length_app.
        cbn [length]. lia.
      + rewrite Epos. lia.
    - unfold execute in He. rewrite Epos in He.
      destruct (signal_at bars i);
        try (injection He as <-; rewrite Epos; lia).
      destruct (Qeq_bool (close bar) 0); [discriminate|].
      destruct (0 <? _)%Z; injection He as <-.
      + cbn [open_position trades position]. lia.
      + rewrite Epos. lia. }
  assert (Hcurve : length (equity_curve st1) = (length bars - 100)%nat).
  { pose proof (loop_equity_dates _ _ _ _ _ _ Hl) as Hd.
    apply (f_equal (@length Z)) in Hd.
    rewrite length_app, !length_map, length_firstn, length_skipn in Hd.
    cbn [new_state equity_curve length] in Hd. lia. }
  unfold close_open_position, open_count in *.
  destruct (position st1) as [p|]; [|lia].
  destruct (nth_error bars (length bars - 1)); [|lia].
  cbn [trades]. rewrite length_app. cbn [length]. lia.
Qed.

Lemma trades_take_two_bars_witness :
  exists st,
    simulate default_config (Some sample_run_bars) 10000 = Finished st /\
    (2 * length (trades st) <= (length sample_run_bars - 100) + 1)%nat.
Proof.
  assert (E : exists st,
             simulate default_config (Some sample_run_bars) 10000
             = Finished st)
    by (vm_compute; eexists; reflexivity).
  destruct E as [st E]. exists st. split; [exact E|].
  apply (trades_take_two_bars default_config sample_run_bars 10000 st E).
Defined.

Lemma loop_app (cfg : Config) (bars : list Bar) (l1 l2 : list nat) :
  forall st,
    loop cfg bars st (l1 ++ l2)
    = match loop cfg bars st l1 with
      | Some st1 => loop cfg bars st1 l2
      | None => None
      end.
Proof.
  induction l1 as [|i l1 IH]; intro st; [reflexivity|].
  simpl. destruct (step cfg bars st i); [apply IH|reflexivity].
Qed.

(** X13.  The report closes where the equity curve ends: after a run over more
    than 100 bars the final capital, forced closure included, is exactly
    the equity of the last snapshot. *)
Theorem final_capital_is_last_equity (cfg : Config) (bars : list Bar)
  (initial : Q) (st : State) :
  (100 < length bars)%nat ->
  simulate cfg (Some bars) initial = Finished st ->
  exists curve s,
    equity_curve st = curve ++ [s] /\ capital st = equity s.
Proof.
  intros Hlen H. unfold simulate in H.
  destruct (length bars <? 100)%nat; [discriminate|].
  destruct (loop cfg bars (new_state initial) (bar_indices bars))
    as [st1|] eqn:Hl; [|discriminate].
  injection H as <-. unfold bar_indices in Hl.
  destruct (length bars - 100)%nat as [|k] eqn:Ek; [lia|].
  rewrite seq_S, loop_app in Hl.
  destruct (loop cfg bars (new_state initial) (seq 100 k)) as [sta|];
    [|discriminate].
  cbn [loop] in Hl.
  destruct (step cfg bars sta (100 + k)) as [stb|] eqn:Es;
    [|discriminate].
  injection Hl as <-. apply step_inv in Es.
  destruct Es as [bar [st0 [Hn [He ->]]]].
  replace (100 + k)%nat with (length bars - 1)%nat in Hn by lia.
  unfold close_open_position. cbn [track_equity position].
  rewrite Hn.
  destruct (position st0) as [p|] eqn:Ep;
    eexists _, _; cbn [capital equity_curve track_equity];
    (split; [reflexivity|]); cbn [equity]; rewrite Ep; reflexivity.
Qed.

Lemma final_capital_is_last_equity_witness :
  exists st curve s,
    simulate default_config (Some sample_run_bars) 10000 = Finished st /\
    equity_curve st = curve ++ [s] /\ capital st = equity s.
Proof.
  assert (E : exists st,
             simulate default_config (Some sample_run_bars) 10000
             = Finished st)
    by (vm_compute; eexists; reflexivity).
  destruct E as [st E].
  destruct (final_capital_is_last_equity default_config sample_run_bars
              10000 st ltac:(vm_compute; lia) E) as [curve [s [H1 H2]]].
  exists st, curve, s. split; [exact E|]. split; assumption.
Defined.

End Trades.

(** ** Statistics *)

Section Statistics.
Import Backtester.

Lemma sign_partition (xs : list Q) :
  length xs
  = (length (filter (fun x => Qltb 0 x) xs)
     + length (filter (fun x => Qltb x 0) xs)
     + length (filter (fun x => Qeq_bool x 0) xs))%nat.
Proof.
  induction xs as [|x xs IH]; [reflexivity|].
  simpl. destruct (Q_dec x 0) as [[Hneg|Hpos]|Hz].
  - rewrite (proj2 (Qltb_lt x 0) Hneg).
    rewrite (proj2 (Qltb_ge 0 x)) by (apply Qlt_le_weak; exact Hneg).
    rewrite (proj2 (Qeq_bool_false x 0)) by lra.
    simpl. lia.
  - rewrite (proj2 (Qltb_lt 0 x) Hpos).
    rewrite (proj2 (Qltb_ge x 0)) by (apply Qlt_le_weak; exact Hpos).
    rewrite (proj2 (Qeq_bool_false x 0)) by lra.
    simpl. lia.
  - rewrite (proj2 (Qeq_bool_iff x 0) Hz).
    rewrite (proj2 (Qltb_ge 0 x)) by lra.
    rewrite (proj2 (Qltb_ge x 0)) by lra.
    simpl. lia.
Qed.

Lemma filter_length_le {A} (f : A -> bool) (l : list A) :
  (length (filter f l) <= length l)%nat.
Proof.
  induction l as [|x l IH]; [apply Nat.le_refl|].
  simpl. destruct (f x); simpl; lia.
Qed.

Lemma Qsum_neg (xs : list Q) :
  xs <> [] -> (forall x, In x xs -> x < 0) -> Qsum xs < 0.
Proof.
  induction xs as [|x xs IH]; intros Hne H; [congruence|].
  assert (x < 0) by (apply H; left; reflexivity).
  destruct xs as [|y xs].
  - simpl. lra.
  - assert (Qsum (y :: xs) < 0).
    { apply IH; [discriminate|]. intros z Hz. apply H. right. exact Hz. }
    change (Qsum (x :: y :: xs)) with (x + Qsum (y :: xs)). lra.
Qed.

Lemma Qmean_neg (xs : list Q) :
  xs <> [] -> (forall x, In x xs -> x < 0) -> Qmean xs < 0.
Proof.
  intros Hne H. unfold Qmean. apply Qlt_shift_div_r.
  - apply Qlen_pos. exact Hne.
  - rewrite Qmult_0_l. apply Qsum_neg; assumption.
Qed.

Lemma length_pos_nonempty {A} (l : list A) :
  (0 <? length l)%nat = true -> l <> [].
Proof. destruct l; [discriminate|]. intros _. discriminate. Qed.

Lemma calculate_statistics_fields (ts : list Trade) (curve : list Snapshot)
  (initial final : Q) (r : Report) :
  calculate_statistics ts curve initial final = Some r ->
  let wins := pnls_where (fun x => Qltb 0 x) ts in
  let losses := pnls_where (fun x => Qltb x 0) ts in
  (ts <> []) /\
  (total_trades r = length ts) /\
  (winning_trades r = length wins) /\
  (losing_trades r = length losses) /\
  (win_rate r = inject_Z (Z.of_nat (length wins))
                / inject_Z (Z.of_nat (length ts)) * 100) /\
  (avg_win r = if (0 <? length wins)%nat then Qmean wins else 0) /\
  (avg_loss r = if (0 <? length losses)%nat then Qmean losses else 0) /\
  (profit_factor r
   = if Qeq_bool (avg_loss r) 0 then 0
     else Qabs (avg_win r / avg_loss r)) /\
  (max_drawdown r = series_min (drawdown (map equity curve))).
Proof.
  destruct ts as [|t ts]; [discriminate|]. intro H.
  unfold calculate_statistics in H. injection H as <-.
  split; [discriminate|]. repeat split.
Qed.

(** X14.  The counts of a report partition the trades by the sign of their
    pnl; the win rate lies between 0 and 100; the average win is positive
    when there is a winning trade and 0 otherwise, the average loss is
    negative when there is a losing trade and 0 otherwise; and the profit
    factor is never negative. *)
Theorem report_counts_and_ranges (ts : list Trade) (curve : list Snapshot)
  (initial final : Q) (r : Report) :
  calculate_statistics ts curve initial final = Some r ->
  total_trades r
  = (winning_trades r + losing_trades r
     + length (pnls_where (fun x => Qeq_bool x 0) ts))%nat /\
  0 <= win_rate r <= 100 /\
  (if (0 <? winning_trades r)%nat then 0 < avg_win r else avg_win r = 0) /\
  (if (0 <? losing_trades r)%nat then avg_loss r < 0 else avg_loss r = 0) /\
  0 <= profit_factor r.
Proof.
  intro H. apply calculate_statistics_fields in H.
  destruct H as [Hne [-> [-> [-> [-> [-> [-> [-> _]]]]]]]].
  set (all := ts) in *.
  set (wins := pnls_where (fun x => Qltb 0 x) all).
  set (losses := pnls_where (fun x => Qltb x 0) all).
  split; [|split; [|split; [|split]]].
  - unfold wins, losses, pnls_where.
    rewrite <- (length_map pnl all). apply sign_partition.
  - assert (Hw : (length wins <= length all)%nat).
    { unfold wins, pnls_where. rewrite <- (length_map pnl all).
      apply filter_length_le. }
    assert (Ht : 0 < inject_Z (Z.of_nat (length all))).
    { change 0 with (inject_Z 0). rewrite <- Zlt_Qlt.
      destruct all; [congruence|]. simpl length. lia. }
    assert (H0 : 0 <= inject_Z (Z.of_nat (length wins))).
    { change 0 with (inject_Z 0). rewrite <- Zle_Qle. lia. }
    assert (H1 : inject_Z (Z.of_nat (length wins))
                 <= inject_Z (Z.of_nat (length all))).
    { rewrite <- Zle_Qle. lia. }
    assert (Ha : 0 <= inject_Z (Z.of_nat (length wins))
                      / inject_Z (Z.of_nat (length all))).
    { apply Qle_shift_div_l; [exact Ht|]. lra. }
    assert (Hb : inject_Z (Z.of_nat (length wins))
                 / inject_Z (Z.of_nat (length all)) <= 1).
    { apply Qle_shift_div_r; [exact Ht|]. lra. }
    split; lra.
  - destruct (0 <? length wins)%nat eqn:E; [|reflexivity].
    assert (Hall : forall x, In x wins -> 0 < x).
    { intros x Hx. unfold wins, pnls_where in Hx.
      apply filter_In in Hx. apply Qltb_lt. apply Hx. }
    apply Qmean_pos.
    + intros x Hx. apply Qlt_le_weak. apply Hall. exact Hx.
    + destruct wins as [|w ws]; [discriminate|].
      exists w. split; [left; reflexivity|]. apply Hall. left. reflexivity.
  - destruct (0 <? length losses)%nat eqn:E; [|reflexivity].
    apply Qmean_neg; [apply length_pos_nonempty; exact E|].
    intros x Hx. unfold losses, pnls_where in Hx.
    apply filter_In in Hx. apply Qltb_lt. apply Hx.
  - destruct (Qeq_bool _ 0); [apply Qle_refl|apply Qabs_nonneg].
Qed.

Lemma report_counts_and_ranges_witness :
  exists r,
    calculate_statistics sample_trades sample_curve 10000 10060 = Some r /\
    0 <= win_rate r <= 100.
Proof.
  eexists. split; [reflexivity|].
  apply (report_counts_and_ranges sample_trades sample_curve 10000 10060).
  reflexivity.
Defined.

(** Drawdown. *)
Lemma drawdown_from_nonpos (peak : Q) (es : list Q) :
  0 < peak ->
  forall y,
    In y (zip_with (fun e pk => fmul (fdiv (Fin (e - pk)) (Fin pk)) (Fin 100))
                   es (cummax_from peak es)) ->
    exists d, y = Fin d /\ d <= 0.
Proof.
  revert peak. induction es as [|e es IH]; intros peak Hp y Hy;
    [contradiction|].
  cbn [cummax_from zip_with] in Hy.
  set (peak' := if Qltb peak e then e else peak) in *.
  assert (Hpk : 0 < peak' /\ e <= peak').
  { unfold peak'. destruct (Qltb peak e) eqn:E.
    - apply Qltb_lt in E. split; lra.
    - apply Qltb_ge in E. split; lra. }
  destruct Hpk as [Hpos Hle].
  destruct Hy as [<-|Hy]; [|apply (IH peak' Hpos y Hy)].
  cbn [fdiv fmul].
  rewrite (proj2 (Qeq_bool_false peak' 0)) by lra.
  eexists. split; [reflexivity|].
  assert (Hq : (e - peak') / peak' <= 0).
  { apply Qle_shift_div_r; [exact Hpos|]. lra. }
  lra.
Qed.

Lemma drawdown_nonpos (e0 : Q) (es : list Q) :
  0 < e0 ->
  forall y, In y (drawdown (e0 :: es)) -> exists d, y = Fin d /\ d <= 0.
Proof.
  intros Hp y Hy. unfold drawdown in Hy. cbn [cummax zip_with] in Hy.
  destruct Hy as [<-|Hy].
  - cbn [fdiv fmul]. rewrite (proj2 (Qeq_bool_false e0 0)) by lra.
    eexists. split; [reflexivity|].
    assert ((e0 - e0) / e0 <= 0)
      by (apply Qle_shift_div_r; [exact Hp|lra]).
    lra.
  - apply (drawdown_from_nonpos e0 es Hp y Hy).
Qed.

Lemma fold_min_nonpos (s : Series) :
  (forall y, In y s -> exists d, y = Fin d /\ d <= 0) ->
  forall m, (exists d, m = Fin d /\ d <= 0) ->
  exists d,
    fold_left (fun m x =>
                 if is_nan x then m
                 else if is_nan m then x
                 else if flt x m then x else m) s m = Fin d /\ d <= 0.
Proof.
  induction s as [|y s IH]; intros Hall m Hm; [exact Hm|].
  cbn [fold_left]. apply IH.
  - intros z Hz. apply Hall. right. exact Hz.
  - destruct (Hall y (or_introl eq_refl)) as [dy [-> Hdy]].
    destruct Hm as [dm [-> Hdm]]. cbn [is_nan].
    destruct (flt (Fin dy) (Fin dm)); eexists; split;
      try reflexivity; assumption.
Qed.

(** X15.  The maximum drawdown of a report is never positive when the first
    equity snapshot is positive. *)
Theorem max_drawdown_never_positive (ts : list Trade)
  (curve : list Snapshot) (s0 : Snapshot) (initial final : Q) (r : Report) :
  calculate_statistics ts (s0 :: curve) initial final = Some r ->
  0 < equity s0 ->
  exists d, max_drawdown r = Fin d /\ d <= 0.
Proof.
  intros H Hp. apply calculate_statistics_fields in H.
  destruct H as [_ [_ [_ [_ [_ [_ [_ [_ ->]]]]]]]]. cbn [map].
  pose proof (drawdown_nonpos (equity s0) (map equity curve) Hp) as Hall.
  unfold series_min.
  destruct (drawdown (equity s0 :: map equity curve)) as [|y s] eqn:Ed.
  - unfold drawdown in Ed. discriminate Ed.
  - cbn [fold_left].
    destruct (Hall y (or_introl eq_refl)) as [dy [-> Hdy]].
    cbn [is_nan]. apply fold_min_nonpos.
    + intros z Hz. apply Hall. right. exact Hz.
    + exists dy. split; [reflexivity|exact Hdy].
Qed.

Lemma max_drawdown_never_positive_witness :
  exists r d,
    calculate_statistics sample_trades sample_curve 10000 10060 = Some r /\
    max_drawdown r = Fin d /\ d <= 0.
Proof.
  destruct (max_drawdown_never_positive sample_trades (tl sample_curve)
              {| date := 100; equity := 10000 |} 10000 10060 _ eq_refl
              ltac:(reflexivity)) as [d [H1 H2]].
  eexists _, d. split; [reflexivity|]. split; assumption.
Defined.

End Statistics.

(** ** The live driver *)

Section Live.
Import TradingBot.

Variable cfg : Config.
Variable broker : Broker.
Variable now : Z.

Lemma place_market_buy (log : list OrderRequest) (symbol : string)
  (qty : Z) :
  AlpacaTrader.place_order (submit_order broker) log symbol qty
                           "buy" "market" None
  = (submit_order broker (MarketOrderRequest symbol qty OS_BUY),
     log ++ [MarketOrderRequest symbol qty OS_BUY]).
Proof. reflexivity. Qed.

Lemma place_market_sell (log : list OrderRequest) (symbol : string)
  (qty : Z) :
  AlpacaTrader.place_order (submit_order broker) log symbol qty
                           "sell" "market" None
  = (submit_order broker (MarketOrderRequest symbol qty OS_SELL),
     log ++ [MarketOrderRequest symbol qty OS_SELL]).
Proof. reflexivity. Qed.

Lemma execute_sell_sent (bot : Bot) (symbol : string) (price : Q)
  (pos : LivePosition) :
  sent (execute_sell broker bot symbol price pos)
  = sent bot ++ [MarketOrderRequest symbol (Qtrunc (lp_qty pos)) OS_SELL].
Proof.
  unfold execute_sell. rewrite place_market_sell.
  destruct (submit_order broker _); reflexivity.
Qed.

Lemma execute_buy_sent (bot : Bot) (symbol : string) (price : Q) :
  sent (execute_buy cfg broker now bot symbol price) = sent bot \/
  exists qty, (1 <= qty)%Z /\
    sent (execute_buy cfg broker now bot symbol price)
    = sent bot ++ [MarketOrderRequest symbol qty OS_BUY].
Proof.
  unfold execute_buy.
  destruct (get_account broker) as [account|]; [|left; reflexivity].
  destruct (Qeq_bool price 0); [left; reflexivity|].
  destruct (_ <? 1)%Z eqn:E; [left; reflexivity|].
  apply Z.ltb_ge in E. right. eexists. split; [exact E|].
  rewrite place_market_buy. destruct (submit_order broker _); reflexivity.
Qed.

(** X16.  In one tick the live driver sends at most one request to the order
    sink, and always a market order for the symbol of the tick: a buy
    order of at least one share only on a BUY signal without a held
    position, a sell order only for the whole quantity of a held position.
    Nothing is sent when the broker has no bars. *)
Theorem tick_sends_one_market_order (bot : Bot) (symbol : string) :
  let bot' := process_symbol cfg broker now bot symbol in
  sent bot' = sent bot \/
  (exists bars qty,
     sent bot' = sent bot ++ [MarketOrderRequest symbol qty OS_BUY] /\
     (1 <= qty)%Z /\
     get_position broker symbol = None /\
     get_bars broker symbol = Some bars /\ bars <> [] /\
     TradingStrategy.generate_signal bars = BUY) \/
  (exists bars pos,
     sent bot' = sent bot
                 ++ [MarketOrderRequest symbol (Qtrunc (lp_qty pos)) OS_SELL]
     /\ get_position broker symbol = Some pos /\
     get_bars broker symbol = Some bars /\ bars <> []).
Proof.
  unfold process_symbol.
  destruct (get_bars broker symbol) as [bars|] eqn:Eb; [|left; reflexivity].
  destruct (length bars =? 0)%nat eqn:El; [left; reflexivity|].
  assert (Hne : bars <> []).
  { intro E. subst bars. discriminate El. }
  cbv zeta.
  destruct (get_position broker symbol) as [pos|] eqn:Ep.
  - assert (Hsell : forall price,
              exists bars0 pos0,
                sent (execute_sell broker bot symbol price pos)
                = sent bot ++ [MarketOrderRequest symbol
                                 (Qtrunc (lp_qty pos0)) OS_SELL] /\
                Some pos = Some pos0 /\ Some bars = Some bars0 /\
                bars0 <> []).
    { intro price. exists bars, pos. rewrite execute_sell_sent.
      repeat split. exact Hne. }
    assert (Hcheck : forall price,
              sent (check_exit_conditions cfg broker bot symbol price pos)
              = sent bot \/
              exists bars0 pos0,
                sent (check_exit_conditions cfg broker bot symbol price pos)
                = sent bot ++ [MarketOrderRequest symbol
                                 (Qtrunc (lp_qty pos0)) OS_SELL] /\
                Some pos = Some pos0 /\ Some bars = Some bars0 /\
                bars0 <> []).
    { intro price. unfold check_exit_conditions.
      destruct (fle _ _); [right; apply Hsell|].
      destruct (fge _ _); [right; apply Hsell|]. left. reflexivity. }
    destruct (TradingStrategy.generate_signal bars).
    + destruct (Hcheck (last (map close bars) 0)) as [H|H];
        [left; exact H|right; right; exact H].
    + right. right. apply Hsell.
    + destruct (Hcheck (last (map close bars) 0)) as [H|H];
        [left; exact H|right; right; exact H].
  - destruct (TradingStrategy.generate_signal bars) eqn:Es;
      try (left; reflexivity).
    destruct (execute_buy_sent bot symbol (last (map close bars) 0))
      as [H|[qty [Hq H]]]; [left; exact H|].
    right. left. exists bars, qty. repeat split; assumption.
Qed.

(** X17.  With a position held, the live driver sells exactly when the exit
    decision of the backtester fires on the same signal, price and entry
    price: SELL signal, stop-loss or take-profit. *)
Theorem live_exit_matches_backtest (bot : Bot) (symbol : string)
  (bars : list Bar) (pos : LivePosition) :
  get_bars broker symbol = Some bars -> bars <> [] ->
  get_position broker symbol = Some pos ->
  let price := last (map close bars) 0 in
  let held := {| entry_price := avg_entry_price pos;
                 shares := Qtrunc (lp_qty pos);
                 entry_date := 0 |} in
  let decision :=
    Backtester.exit_decision cfg (TradingStrategy.generate_signal bars)
      (Backtester.position_pnl_pct price held) in
  sent (process_symbol cfg broker now bot symbol)
  = if fst decision
    then sent bot
         ++ [MarketOrderRequest symbol (Qtrunc (lp_qty pos)) OS_SELL]
    else sent bot.
Proof.
  intros Eb Hne Ep price held decision. unfold process_symbol.
  rewrite Eb, Ep.
  destruct (length bars =? 0)%nat eqn:El;
    [destruct bars; [congruence|discriminate El]|].
  cbv zeta. fold price. unfold decision, Backtester.exit_decision.
  unfold Backtester.position_pnl_pct. cbn [entry_price held].
  destruct (TradingStrategy.generate_signal bars);
    try (unfold check_exit_conditions;
         destruct (fle _ _); [cbn [fst]; apply execute_sell_sent|];
         destruct (fge _ _); [cbn [fst]; apply execute_sell_sent|];
         reflexivity).
  cbn [fst]. apply execute_sell_sent.
Qed.

Lemma dict_get_set_same {V} (k : string) (v : V) (d : list (string * V)) :
  dict_get k (dict_set k v d) = Some v.
Proof.
  induction d as [|[k' v'] d IH]; simpl.
  - rewrite String.eqb_refl. reflexivity.
  - destruct (String.eqb k k') eqn:E; simpl.
    + rewrite String.eqb_refl. reflexivity.
    + rewrite E. exact IH.
Qed.

Lemma dict_get_set_other {V} (k k0 : string) (v : V)
  (d : list (string * V)) :
  k0 <> k -> dict_get k0 (dict_set k v d) = dict_get k0 d.
Proof.
  intro Hne. apply String.eqb_neq in Hne.
  induction d as [|[k' v'] d IH]; simpl.
  - rewrite Hne. reflexivity.
  - destruct (String.eqb k k') eqn:E; simpl.
    + apply String.eqb_eq in E. subst k'. rewrite Hne. reflexivity.
    + destruct (String.eqb k0 k'); [reflexivity|exact IH].
Qed.

Lemma dict_get_del_same {V} (k : string) (d : list (string * V)) :
  dict_get k (dict_del k d) = None.
Proof.
  induction d as [|[k' v'] d IH]; simpl; [reflexivity|].
  destruct (String.eqb k k') eqn:E; simpl; [exact IH|].
  rewrite E. exact IH.
Qed.

Lemma dict_get_del_other {V} (k k0 : string) (d : list (string * V)) :
  k0 <> k -> dict_get k0 (dict_del k d) = dict_get k0 d.
Proof.
  intro Hne. apply String.eqb_neq in Hne.
  induction d as [|[k' v'] d IH]; simpl; [reflexivity|].
  destruct (String.eqb k k') eqn:E; simpl.
  - apply String.eqb_eq in E. subst k'. rewrite Hne. exact IH.
  - destruct (String.eqb k0 k'); [reflexivity|exact IH].
Qed.

(** The three ways a tick can end. *)
Lemma tick_outcome (bot : Bot) (symbol : string) :
  let bot' := process_symbol cfg broker now bot symbol in
  bot' = bot \/
  (exists qty price,
     let o := MarketOrderRequest symbol qty OS_BUY in
     sent bot' = sent bot ++ [o] /\
     active_positions bot'
     = match submit_order broker o with
       | Some _ => dict_set symbol {| ap_entry_price := price;
                                      ap_qty := qty;
                                      ap_entry_time := now |}
                            (active_positions bot)
       | None => active_positions bot
       end) \/
  (exists qty,
     let o := MarketOrderRequest symbol qty OS_SELL in
     sent bot' = sent bot ++ [o] /\
     active_positions bot'
     = match submit_order broker o with
       | Some _ => dict_del symbol (active_positions bot)
       | None => active_positions bot
       end).
Proof.
  assert (Hsell : forall price pos,
            exists qty,
              let o := MarketOrderRequest symbol qty OS_SELL in
              sent (execute_sell broker bot symbol price pos)
              = sent bot ++ [o] /\
              active_positions (execute_sell broker bot symbol price pos)
              = match submit_order broker o with
                | Some _ => dict_del symbol (active_positions bot)
                | None => active_positions bot
                end).
  { intros price pos. exists (Qtrunc (lp_qty pos)). cbv zeta.
    unfold execute_sell. rewrite place_market_sell.
    destruct (submit_order broker _); split; reflexivity. }
  assert (Hcheck : forall price pos,
            check_exit_conditions cfg broker bot symbol price pos = bot \/
            check_exit_conditions cfg broker bot symbol price pos
            = execute_sell broker bot symbol price pos).
  { intros price pos. unfold check_exit_conditions.
    destruct (fle _ _); [right; reflexivity|].
    destruct (fge _ _); [right; reflexivity|left; reflexivity]. }
  unfold process_symbol.
  destruct (get_bars broker symbol) as [bars|]; [|left; reflexivity].
  destruct (length bars =? 0)%nat; [left; reflexivity|].
  cbv zeta.
  destruct (get_position broker symbol) as [pos|].
  - destruct (TradingStrategy.generate_signal bars).
    + destruct (Hcheck (last (map close bars) 0) pos) as [->| ->];
        [left; reflexivity|right; right; apply Hsell].
    + right. right. apply Hsell.
    + destruct (Hcheck (last (map close bars) 0) pos) as [->| ->];
        [left; reflexivity|right; right; apply Hsell].
  - destruct (TradingStrategy.generate_signal bars);
      try (left; reflexivity).
    unfold execute_buy.
    destruct (get_account broker) as [account|]; [|left; reflexivity].
    destruct (Qeq_bool _ 0); [left; reflexivity|].
    set (size := Qtrunc (buying_power account * POSITION_SIZE_PCT cfg
                         / last (map close bars) 0)).
    destruct (size <? 1)%Z; [left; reflexivity|].
    right. left. exists size, (last (map close bars) 0). cbv zeta.
    rewrite place_market_buy.
    destruct (submit_order broker (MarketOrderRequest symbol size OS_BUY));
      split; reflexivity.
Qed.

Lemma app_one_neq {A} (l : list A) (x : A) : l <> l ++ [x].
Proof.
  intro E. apply (f_equal (@length A)) in E.
  rewrite length_app in E. simpl in E. lia.
Qed.

(** X18.  The local book [active_positions] follows the accepted orders only:
    a tick never touches the entry of another symbol; it leaves the book
    as it is when it sends nothing or the broker refuses the order; after
    an accepted buy order the book holds the symbol with the quantity
    bought; after an accepted sell order the symbol is gone from it. *)
Theorem tick_updates_book (bot : Bot) (symbol : string) :
  let bot' := process_symbol cfg broker now bot symbol in
  (forall k, k <> symbol ->
     dict_get k (active_positions bot')
     = dict_get k (active_positions bot)) /\
  (sent bot' = sent bot -> active_positions bot' = active_positions bot) /\
  (forall o, sent bot' = sent bot ++ [o] ->
     match submit_order broker o, o with
     | None, _ => active_positions bot' = active_positions bot
     | Some _, MarketOrderRequest _ qty OS_BUY =>
         exists entry,
           dict_get symbol (active_positions bot') = Some entry /\
           ap_qty entry = qty /\ ap_entry_time entry = now
     | Some _, MarketOrderRequest _ _ OS_SELL =>
         dict_get symbol (active_positions bot') = None
     | Some _, LimitOrderRequest _ _ _ _ => False
     end).
Proof.
  intro bot'. destruct (tick_outcome bot symbol) as [H|[H|H]];
    fold bot' in H.
  - rewrite H. split; [reflexivity|]. split; [reflexivity|].
    intros o Ho. exfalso. apply (app_one_neq _ _ Ho).
  - destruct H as [qty [price [Hs Ha]]]. cbv zeta in Hs, Ha.
    split; [|split].
    + intros k Hk. rewrite Ha. destruct (submit_order broker _);
        [apply dict_get_set_other; exact Hk|reflexivity].
    + intro E. rewrite Hs in E. exfalso.
      apply (app_one_neq _ _ (eq_sym E)).
    + intros o Ho. rewrite Hs in Ho. apply app_inj_tail in Ho.
      destruct Ho as [_ <-]. rewrite Ha.
      destruct (submit_order broker _); [|reflexivity].
      eexists. split; [apply dict_get_set_same|]. split; reflexivity.
  - destruct H as [qty [Hs Ha]]. cbv zeta in Hs, Ha.
    split; [|split].
    + intros k Hk. rewrite Ha. destruct (submit_order broker _);
        [apply dict_get_del_other; exact Hk|reflexivity].
    + intro E. rewrite Hs in E. exfalso.
      apply (app_one_neq _ _ (eq_sym E)).
    + intros o Ho. rewrite Hs in Ho. apply app_inj_tail in Ho.
      destruct Ho as [_ <-]. rewrite Ha.
      destruct (submit_order broker _); [|reflexivity].
      apply dict_get_del_same.
Qed.

End Live.

Lemma live_exit_matches_backtest_witness :
  sent (TradingBot.process_symbol default_config sample_broker 0
          empty_bot "AAPL")
  = if fst (Backtester.exit_decision default_config
              (TradingStrategy.generate_signal falling_bars)
              (Backtester.position_pnl_pct
                 (last (map close falling_bars) 0)
                 {| entry_price := 100; shares := Qtrunc 10;
                    entry_date := 0 |}))
    then [MarketOrderRequest "AAPL" (Qtrunc 10) OS_SELL]
    else [].
Proof.
  apply (live_exit_matches_backtest default_config sample_broker 0
           empty_bot "AAPL" falling_bars
           {| lp_qty := 10; avg_entry_price := 100 |}).
  - reflexivity.
  - discriminate.
  - reflexivity.
Defined.

(** ** The side of an order *)

Section Side.
Import AlpacaTrader.

Lemma lower_ascii_b (c : ascii) :
  lower_ascii c = "b"%char -> c = "b"%char \/ c = "B"%char.
Proof.
  destruct c as [[] [] [] [] [] [] [] []]; vm_compute; intro H;
    try discriminate H; auto.
Qed.

Lemma lower_ascii_u (c : ascii) :
  lower_ascii c = "u"%char -> c = "u"%char \/ c = "U"%char.
Proof.
  destruct c as [[] [] [] [] [] [] [] []]; vm_compute; intro H;
    try discriminate H; auto.
Qed.

Lemma lower_ascii_y (c : ascii) :
  lower_ascii c = "y"%char -> c = "y"%char \/ c = "Y"%char.
Proof.
  destruct c as [[] [] [] [] [] [] [] []]; vm_compute; intro H;
    try discriminate H; auto.
Qed.

(** X19.  [place_order] reads the side without regard to letter case: the
    order is a buy order exactly for the eight spellings of "buy", and a
    sell order for every other string. *)
Theorem side_is_buy_in_any_case (side : string) :
  side_of side = OS_BUY <->
  In side ["buy"; "buY"; "bUy"; "bUY"; "Buy"; "BuY"; "BUy"; "BUY"]%string.
Proof.
  split.
  - unfold side_of. destruct (String.eqb (lower side) "buy") eqn:E;
      [|discriminate]. intros _. apply String.eqb_eq in E.
    destruct side as [|c1 [|c2 [|c3 [|c4 rest]]]]; try discriminate E.
    simpl in E. injection E as E1 E2 E3.
    destruct (lower_ascii_b c1 E1) as [-> | ->];
      destruct (lower_ascii_u c2 E2) as [-> | ->];
      destruct (lower_ascii_y c3 E3) as [-> | ->]; simpl; tauto.
  - intro H. simpl in H.
    repeat (destruct H as [<-|H]; [reflexivity|]). contradiction.
Qed.

End Side.

(** ** The RSI as a share of the gains *)

Section RSIForm.
Import TradingStrategy.

Lemma rsi_ratio_form (G L n : Q) :
  0 <= G -> 0 < L -> 0 < n ->
  100 + - (100 / (1 + (G / n) / (L / n))) == 100 * G / (G + L).
Proof.
  intros HG HL Hn. field. repeat split; lra.
Qed.

(** X6.  For a bar whose RSI window is full and holds a falling close, the RSI
    is the share of the gains in the total movement of the window:
    [100 * gains / (gains + losses)], with the sums of the rises and of
    the falls over the 14 changes. *)
Theorem rsi_is_share_of_gains (bars : list Bar) (i : nat) :
  (13 <= i)%nat -> (i < length bars)%nat ->
  (exists d, In d (rsi_window bars i) /\ d < 0) ->
  let gains := Qsum (map gain_of (rsi_window bars i)) in
  let losses := Qsum (map loss_of (rsi_window bars i)) in
  exists x,
    rsi (row_at (indicators bars) i) = Fin x /\
    x == 100 * gains / (gains + losses).
Proof.
  intros Hlo Hhi [d [Hd Hneg]]. cbv zeta.
  rewrite rsi_at by assumption.
  assert (Hlen : length (rsi_window bars i) = 14%nat)
    by (apply rsi_window_length; assumption).
  assert (HG : 0 <= Qsum (map gain_of (rsi_window bars i))).
  { apply Qsum_nonneg. intros x Hx. apply in_map_iff in Hx.
    destruct Hx as [e [<- _]]. apply gain_of_nonneg. }
  assert (HL : 0 < Qsum (map loss_of (rsi_window bars i))).
  { apply Qsum_pos.
    - intros x Hx. apply in_map_iff in Hx. destruct Hx as [e [<- _]].
      apply loss_of_nonneg.
    - exists (loss_of d). split; [apply in_map; exact Hd|].
      apply loss_of_pos. exact Hneg. }
  unfold Qmean, Qlen. rewrite !length_map, Hlen.
  remember (Qsum (map gain_of (rsi_window bars i))) as gains eqn:EG.
  remember (Qsum (map loss_of (rsi_window bars i))) as losses eqn:EL.
  clear EG EL.
  assert (Hn : 0 < inject_Z (Z.of_nat 14)) by reflexivity.
  assert (Hg : 0 <= gains / inject_Z (Z.of_nat 14))
    by (apply Qle_shift_div_l; lra).
  assert (Hl : 0 < losses / inject_Z (Z.of_nat 14))
    by (apply Qlt_shift_div_l; lra).
  destruct (rsi_of_means_ratio _ _ Hg Hl) as [E _].
  eexists. split; [exact E|].
  apply rsi_ratio_form; assumption.
Qed.

Lemma rsi_is_share_of_gains_witness :
  exists x,
    rsi (row_at (indicators falling_bars) 99) = Fin x /\
    x == 100 * Qsum (map gain_of (rsi_window falling_bars 99))
         / (Qsum (map gain_of (rsi_window falling_bars 99))
            + Qsum (map loss_of (rsi_window falling_bars 99))).
Proof.
  apply (rsi_is_share_of_gains falling_bars 99);
    [vm_compute; lia|vm_compute; lia|].
  exists (97 + - 100). split; [vm_compute; tauto|reflexivity].
Defined.

End RSIForm.

(** ** No lookahead in the backtest *)

Section LoopCausality.
Import Backtester.

Lemma nth_error_firstn_lt {A} (k i : nat) (l : list A) :
  (i < k)%nat -> nth_error (firstn k l) i = nth_error l i.
Proof.
  revert i l. induction k as [|k IH]; intros i l Hi; [lia|].
  destruct l as [|x l]; [reflexivity|].
  destruct i as [|i]; [reflexivity|]. simpl. apply IH. lia.
Qed.

Lemma firstn_prefix_agree {A} (k j : nat) (l1 l2 : list A) :
  (j <= k)%nat -> firstn k l1 = firstn k l2 -> firstn j l1 = firstn j l2.
Proof.
  intros Hj H.
  rewrite <- (Nat.min_l j k Hj), <- !firstn_firstn, H. reflexivity.
Qed.

Lemma step_prefix (cfg : Config) (bars1 bars2 : list Bar) (k i : nat)
  (st : State) :
  firstn k bars1 = firstn k bars2 -> (i < k)%nat ->
  step cfg bars1 st i = step cfg bars2 st i.
Proof.
  intros H Hi. unfold step, signal_at.
  rewrite <- (nth_error_firstn_lt k i bars1 Hi),
    <- (nth_error_firstn_lt k i bars2 Hi), H.
  rewrite (firstn_prefix_agree k (i + 1) bars1 bars2 ltac:(lia) H).
  reflexivity.
Qed.

(** X9.  The backtest never looks ahead: two bar series that agree on their
    first [k] bars lead the loop through the same states on every index
    below [k], whatever bars follow. *)
Theorem backtest_no_lookahead (cfg : Config) (bars1 bars2 : list Bar)
  (k : nat) (indices : list nat) :
  firstn k bars1 = firstn k bars2 ->
  (forall i, In i indices -> (i < k)%nat) ->
  forall st, loop cfg bars1 st indices = loop cfg bars2 st indices.
Proof.
  intros H. induction indices as [|i rest IH]; intros Hlt st;
    [reflexivity|].
  simpl. rewrite (step_prefix cfg bars1 bars2 k i st H)
    by (apply Hlt; left; reflexivity).
  destruct (step cfg bars2 st i); [|reflexivity].
  apply IH. intros j Hj. apply Hlt. right. exact Hj.
Qed.

Lemma backtest_no_lookahead_witness :
  loop default_config sample_run_bars (new_state 10000) [100; 101]%nat
  = loop default_config (firstn 102 sample_run_bars) (new_state 10000)
         [100; 101]%nat.
Proof.
  apply (backtest_no_lookahead default_config sample_run_bars
           (firstn 102 sample_run_bars) 102).
  - reflexivity.
  - intros i [<-|[<-|[]]]; lia.
Defined.

End LoopCausality.

(** ** The EMA recursion *)

Section EMARecursion.
Import TradingStrategy.

Lemma ewm_from_nth (alpha : Q) (qs : list Q) :
  forall (w : Q) (i : nat) (c : Q),
    nth_error qs i = Some c ->
    exists a b,
      nth_error (Fin w :: ewm_from alpha (Fin w) (map Fin qs)) i
      = Some (Fin a) /\
      nth_error (ewm_from alpha (Fin w) (map Fin qs)) i = Some (Fin b) /\
      b == (1 - alpha) * a + alpha * c.
Proof.
  induction qs as [|q qs IH]; intros w i c Hc;
    [destruct i; discriminate|].
  cbn [map ewm_from feqb fmul fadd].
  destruct i as [|i].
  - injection Hc as ->. exists w.
    destruct (Qeq_bool w c) eqn:E.
    + exists w. split; [reflexivity|]. split; [reflexivity|].
      apply Qeq_bool_iff in E. rewrite <- E. ring.
    + eexists. split; [reflexivity|]. split; reflexivity.
  - simpl in Hc. destruct (Qeq_bool w q).
    + apply (IH w i c Hc).
    + apply (IH _ i c Hc).
Qed.

Lemma ewm_mean_nth (span : Z) (qs : list Q) (i : nat) (c : Q) :
  nth_error qs (S i) = Some c ->
  exists a b,
    nth_error (ewm_mean span (map Fin qs)) i = Some (Fin a) /\
    nth_error (ewm_mean span (map Fin qs)) (S i) = Some (Fin b) /\
    b == (1 - ewm_alpha span) * a + ewm_alpha span * c.
Proof.
  destruct qs as [|q qs]; [discriminate|]. intro Hc. simpl in Hc.
  cbn [map ewm_mean].
  destruct (ewm_from_nth (ewm_alpha span) qs q i c Hc) as [a [b [Ha [Hb E]]]].
  exists a, b. split; [exact Ha|]. split; [exact Hb|exact E].
Qed.

Lemma nth_of_nth_error {A} (l : list A) (i : nat) (x d : A) :
  nth_error l i = Some x -> nth i l d = x.
Proof. intro H. apply nth_error_nth. exact H. Qed.

(** X5.  The two EMA columns follow the exponential smoothing recursion with
    smoothing factor 2/(span+1), seeded by the first close: the fast EMA
    (span 9) is 0.8 times its previous value plus 0.2 times the close,
    the slow EMA (span 21) is 10/11 of its previous value plus 1/11 of
    the close; in the first row both equal the close. *)
Theorem ema_recursion (bars : list Bar) (i : nat) :
  (S i < length bars)%nat ->
  let c := nth (S i) (map close bars) 0 in
  exists f0 f1 s0 s1,
    ema_fast (row_at (indicators bars) i) = Fin f0 /\
    ema_fast (row_at (indicators bars) (S i)) = Fin f1 /\
    ema_slow (row_at (indicators bars) i) = Fin s0 /\
    ema_slow (row_at (indicators bars) (S i)) = Fin s1 /\
    f1 == 0.8 * f0 + 0.2 * c /\
    s1 == (10 # 11) * s0 + (1 # 11) * c /\
    ema_fast (row_at (indicators bars) 0) = Fin (nth 0 (map close bars) 0)
    /\
    ema_slow (row_at (indicators bars) 0) = Fin (nth 0 (map close bars) 0).
Proof.
  intros Hi c.
  assert (Hc : nth_error (map close bars) (S i) = Some c).
  { unfold c. apply nth_error_nth'. rewrite length_map. exact Hi. }
  destruct (ewm_mean_nth 9 _ _ _ Hc) as [f0 [f1 [Hf0 [Hf1 Ef]]]].
  destruct (ewm_mean_nth 21 _ _ _ Hc) as [s0 [s1 [Hs0 [Hs1 Es]]]].
  exists f0, f1, s0, s1.
  change (ema_fast (row_at (indicators bars) i))
    with (nth i (ewm_mean 9 (map (fun b => Fin (close b)) bars)) NaN).
  change (ema_fast (row_at (indicators bars) (S i)))
    with (nth (S i) (ewm_mean 9 (map (fun b => Fin (close b)) bars)) NaN).
  change (ema_slow (row_at (indicators bars) i))
    with (nth i (ewm_mean 21 (map (fun b => Fin (close b)) bars)) NaN).
  change (ema_slow (row_at (indicators bars) (S i)))
    with (nth (S i) (ewm_mean 21 (map (fun b => Fin (close b)) bars)) NaN).
  change (ema_fast (row_at (indicators bars) 0))
    with (nth 0 (ewm_mean 9 (map (fun b => Fin (close b)) bars)) NaN).
  change (ema_slow (row_at (indicators bars) 0))
    with (nth 0 (ewm_mean 21 (map (fun b => Fin (close b)) bars)) NaN).
  rewrite close_column.
  rewrite (nth_of_nth_error _ _ _ NaN Hf0), (nth_of_nth_error _ _ _ NaN Hf1),
    (nth_of_nth_error _ _ _ NaN Hs0), (nth_of_nth_error _ _ _ NaN Hs1).
  split; [reflexivity|]. split; [reflexivity|].
  split; [reflexivity|]. split; [reflexivity|].
  split; [rewrite Ef; unfold ewm_alpha; field|].
  split; [rewrite Es; unfold ewm_alpha; field|].
  destruct bars as [|b bars]; [simpl in Hi; lia|].
  split; reflexivity.
Qed.

Lemma ema_recursion_witness :
  exists f0 f1,
    ema_fast (row_at (indicators short_bars) 1) = Fin f0 /\
    ema_fast (row_at (indicators short_bars) 2) = Fin f1 /\
    f1 == 0.8 * f0 + 0.2 * 20.
Proof.
  destruct (ema_recursion short_bars 1 ltac:(vm_compute; lia))
    as [f0 [f1 [_ [_ [H0 [H1 [_ [_ [E _]]]]]]]]].
  exists f0, f1. split; [exact H0|]. split; [exact H1|exact E].
Defined.

End EMARecursion.
